(** * Drift: ordered, one-way SQL migrations

    A shallow embedding of [drift.go] (package [drift]) and the properties
    of its migration engine: discovery of migration files, reconciliation
    against the ledger, transactional execution, file naming and
    renumbering.

    Go strings are byte sequences and are modelled by [string] (a list of
    [ascii] bytes); Go's [int] and [int64] are modelled by [Z]. *)

From Stdlib Require Import ZArith List String Ascii Bool Lia Permutation Sorted.
Import ListNotations.

Local Open Scope string_scope.
Local Open Scope Z_scope.

(** ** Errors and results *)

(** The error values that flow through the package.  [Errorf] is
    [fmt.Errorf] with a [%w] verb: an error with its own message that
    unwraps to another one. *)
Inductive error : Type :=
| ErrNegativeID
| ErrDuplicateID
| PgError (code : string)
| NumError (func num : string) (outOfRange : bool)
| PathError (op path : string)
| DriverError (msg : string)
| TemplateError (msg : string)
| Errorf (msg : string) (wrapped : error).

(** A Go call returns normally, returns an error, or panics. *)
Inductive result (A : Type) : Type :=
| Ok (a : A)
| Err (e : error)
| Panic (e : error).

Arguments Ok {A} a.
Arguments Err {A} e.
Arguments Panic {A} e.

Definition is_ok {A} (r : result A) : bool :=
  match r with Ok _ => true | _ => false end.

Fixpoint error_eqb (a b : error) : bool :=
  match a, b with
  | ErrNegativeID, ErrNegativeID => true
  | ErrDuplicateID, ErrDuplicateID => true
  | PgError c, PgError d => String.eqb c d
  | NumError f n r, NumError g m q => String.eqb f g && String.eqb n m && Bool.eqb r q
  | PathError o p, PathError o' p' => String.eqb o o' && String.eqb p p'
  | DriverError m, DriverError m' => String.eqb m m'
  | TemplateError m, TemplateError m' => String.eqb m m'
  | Errorf m e, Errorf m' e' => String.eqb m m' && error_eqb e e'
  | _, _ => false
  end.

(** [errors.Is]: walk the unwrap chain looking for the target. *)
Fixpoint errors_Is (e target : error) : bool :=
  error_eqb e target ||
  match e with
  | Errorf _ w => errors_Is w target
  | _ => false
  end.

(** [errors.As] with a [*pgconn.PgError] target: the code of the first
    PostgreSQL error in the unwrap chain. *)
Fixpoint errors_As_PgError (e : error) : option string :=
  match e with
  | PgError code => Some code
  | Errorf _ w => errors_As_PgError w
  | _ => None
  end.

(** ** Bytes and decimal numerals *)

Definition LF : ascii := "010"%char.

Definition is_digit (c : ascii) : bool :=
  let n := Z.of_N (N_of_ascii c) in (48 <=? n) && (n <=? 57).

Definition digit_val (c : ascii) : Z := Z.of_N (N_of_ascii c) - 48.

Definition digit_char (d : Z) : ascii := ascii_of_N (Z.to_N (48 + d)).

Fixpoint all_digits (s : string) : bool :=
  match s with
  | "" => true
  | String c r => is_digit c && all_digits r
  end.

Fixpoint repeat_char (c : ascii) (n : nat) : string :=
  match n with
  | O => ""
  | S n' => String c (repeat_char c n')
  end.

Definition len (s : string) : Z := Z.of_nat (String.length s).

(** The digit loop of [fmt] and [strconv]: least significant digit
    first, dividing by ten until the value is below ten.  The fuel bounds
    the number of iterations; [S (log2 u)] is always enough. *)
Fixpoint rev_digits (fuel : nat) (u : Z) : list ascii :=
  match fuel with
  | O => []
  | S fuel' =>
      if u <? 10 then [digit_char u]
      else digit_char (u mod 10) :: rev_digits fuel' (u / 10)
  end.

Definition FormatUint (u : Z) : string :=
  string_of_list_ascii (rev (rev_digits (S (Z.to_nat (Z.log2 u))) u)).

(** [fmt.Sprintf("%d", i)] *)
Definition FormatInt (i : Z) : string :=
  if i <? 0 then "-" ++ FormatUint (- i) else FormatUint i.

(** The accumulation loop of [strconv.ParseUint] in base ten. *)
Fixpoint parse_digits (acc : Z) (s : string) : Z :=
  match s with
  | "" => acc
  | String c r => parse_digits (acc * 10 + digit_val c) r
  end.

Definition minInt64 : Z := - 2 ^ 63.
Definition maxInt64 : Z := 2 ^ 63 - 1.

(** [strconv.ParseInt(s, 10, 64)]: an optional sign, then one or more
    decimal digits, the value within the range of [int64]. *)
Definition ParseInt (s : string) : result Z :=
  let '(neg, body) :=
    match s with
    | String c r =>
        if Ascii.eqb c "+" then (false, r)
        else if Ascii.eqb c "-" then (true, r)
        else (false, s)
    | "" => (false, s)
    end in
  if (body =? "")%string || negb (all_digits body)
  then Err (NumError "ParseInt" s false)
  else
    let v := parse_digits 0 body in
    let i := if neg then - v else v in
    if (i <? minInt64) || (maxInt64 <? i)
    then Err (NumError "ParseInt" s true)
    else Ok i.

(** ** MigrationID *)

Definition MigrationID := Z.

Definition NewMigrationID (i : Z) : MigrationID * option error :=
  if i <? 0 then (0, Some (Errorf (FormatInt i) ErrNegativeID))
  else (i, None).

(** [(m *MigrationID).Set(s)]: the new value of [*m] and the error. *)
Definition MigrationID_Set (m : MigrationID) (s : string)
  : MigrationID * option error :=
  match ParseInt s with
  | Ok i => NewMigrationID i
  | Err e | Panic e => (m, Some (Errorf "not a valid integer" e))
  end.

(** [(m MigrationID).Width()] *)
Definition Width (m : MigrationID) : Z := len (FormatInt m).

Definition mustID (s : string) : result MigrationID :=
  match MigrationID_Set 0 s with
  | (_, Some e) => Panic e
  | (id, None) => Ok id
  end.

(** ** Formatting of file names *)

(** [fmt]'s limit on a width given through [*]. *)
Definition tooLarge (x : Z) : bool := (1000000 <? x) || (x <? -1000000).

(** [fmt.Sprintf("%0*d", wid, i)].  A width beyond [fmt]'s limit is
    reported in the output and dropped; a negative width means left
    justification, padded with spaces; otherwise the digits are padded
    with zeros up to the width, the sign taking one place of it. *)
Definition Sprintf_0star_d (wid : Z) (i : Z) : string :=
  if tooLarge wid then "%!(BADWIDTH)" ++ FormatInt i
  else if wid <? 0 then
    let s := FormatInt i in
    s ++ repeat_char " " (Z.to_nat (- wid) - String.length s)
  else
    let digits := FormatUint (Z.abs i) in
    let prec := if i <? 0 then wid - 1 else wid in
    (if i <? 0 then "-" else "")
      ++ repeat_char "0" (Z.to_nat prec - String.length digits) ++ digits.

(** [fmt.Sprintf("%0*d-%s.sql", idWidth, id, slug)] *)
Definition filename (idWidth : Z) (id : MigrationID) (slug : string) : string :=
  Sprintf_0star_d idWidth id ++ "-" ++ slug ++ ".sql".

(** ** The three regular expressions *)

(** The longest prefix of decimal digits, and what follows it. *)
Fixpoint span_digits (s : string) : string * string :=
  match s with
  | "" => ("", "")
  | String c r =>
      if is_digit c
      then let (d, t) := span_digits r in (String c d, t)
      else ("", s)
  end.

Fixpoint no_newline (s : string) : bool :=
  match s with
  | "" => true
  | String c r => negb (Ascii.eqb c LF) && no_newline r
  end.

(** [s] without its final [".sql"], when it ends so. *)
Fixpoint strip_dot_sql (s : string) : option string :=
  match s with
  | "" => None
  | String c r =>
      if (s =? ".sql")%string then Some ""
      else option_map (String c) (strip_dot_sql r)
  end.

(** [reFilename.FindStringSubmatch(name)]: the two groups of a match.
    The pattern is: start of text, one or more digits (group [id]), a
    hyphen, any number of bytes other than line feeds (group [slug]),
    the literal [.sql], end of text.  The digits are followed by a
    hyphen, so the first group is the whole run of leading digits; the
    slug is what lies between that hyphen and the final [.sql]; the dot
    of the pattern matches any byte but a line feed, and the dollar
    (without the [m] flag) only the end of the text. *)
Definition reFilename (name : string) : option (string * string) :=
  match span_digits name with
  | (String d ds, String "-" rest) =>
      if no_newline rest
      then option_map (pair (String d ds)) (strip_dot_sql rest)
      else None
  | _ => None
  end.

Definition noTxDirective : string := "--drift:no-transaction".

(** [reNoTxComment.MatchString]: the pattern is the literal directive
    anchored by a caret under the [m] flag, which matches at the start
    of the text and after every line feed; the literal has to follow at
    once. *)
Fixpoint match_at_line_start (bol : bool) (s : string) : bool :=
  (bol && prefix noTxDirective s) ||
  match s with
  | "" => false
  | String c r => match_at_line_start (Ascii.eqb c LF) r
  end.

Definition skipTx (content : string) : bool :=
  match_at_line_start true content.

(** The character class of [reSeparator]: hyphen, dot, underscore,
    slash and the white space of RE2 (tab, line feed, form feed,
    carriage return, space). *)
Definition is_separator (c : ascii) : bool :=
  existsb (Ascii.eqb c)
    ["-"; "."; "_"; "/"; " "; "009"; "010"; "012"; "013"]%char.

(** [reSeparator.ReplaceAllString(s, "_")]: every
    maximal run of separators becomes one underscore, the other bytes
    are copied.  [in_run] tells that the byte before was a separator. *)
Fixpoint replace_runs (in_run : bool) (s : string) : string :=
  match s with
  | "" => ""
  | String c r =>
      if is_separator c
      then if in_run then replace_runs true r
           else String "_" (replace_runs true r)
      else String c (replace_runs false r)
  end.

Definition slugify (s : string) : string := replace_runs false s.

(** ** Logging *)

(** The calls made on the [IO] interface, in order: the format and its
    arguments, as the source passes them. *)
Inductive LogArg : Type :=
| ArgString (s : string)
| ArgIDPointer (pointee : MigrationID).

Inductive LogLine : Type :=
| Infof (format : string) (args : list LogArg)
| Debugf (format : string) (args : list LogArg)
| InfofTable (header : list string) (rows : list (list string)).

(** ** The migrations directory *)

(** An entry of the directory: its name and what [os.ReadFile] gives for
    it; [None] when the entry cannot be opened (a sub-directory, a file
    without permission). *)
Record DirEntry : Type := mkEntry {
  de_name : string;
  de_data : option string
}.

(** The operations that change the directory, as they are issued. *)
Inductive FsOp : Type :=
| OpRename (old new : string)
| OpCreate (name : string)
| OpTruncate (name : string)
| OpWrite (name data : string).

(** The state of one directory: whether it can be listed, whether
    entries can be added to or moved in it, its entries, and the
    operations performed on it so far. *)
Record FS : Type := mkFS {
  fs_listable : bool;
  fs_writable : bool;
  fs_entries : list DirEntry;
  fs_ops : list FsOp
}.

(** [filepath.Join(dir, name)], for a clean [dir] and an entry name. *)
Definition Join (dir name : string) : string := dir ++ "/" ++ name.

Fixpoint insert_by_name (e : DirEntry) (l : list DirEntry) : list DirEntry :=
  match l with
  | [] => [e]
  | x :: r =>
      if String.leb (de_name e) (de_name x) then e :: l
      else x :: insert_by_name e r
  end.

Definition sort_by_name (l : list DirEntry) : list DirEntry :=
  fold_right insert_by_name [] l.

(** [os.ReadDir(dir)]: the entries sorted by file name. *)
Definition ReadDir (dir : string) (fs : FS) : result (list DirEntry) :=
  if fs_listable fs then Ok (sort_by_name (fs_entries fs))
  else Err (PathError "open" dir).

Definition has_entry (name : string) (fs : FS) : bool :=
  existsb (fun e => (de_name e =? name)%string) (fs_entries fs).

(** [os.Rename(old, new)] inside the directory: an entry already at
    [new] is replaced. *)
Definition Rename (dir old new : string) (fs : FS) : option error * FS :=
  if fs_writable fs && has_entry old fs then
    (None,
     mkFS (fs_listable fs) (fs_writable fs)
       (map (fun e => if (de_name e =? old)%string
                      then mkEntry new (de_data e) else e)
          (filter (fun e => (de_name e =? old)%string
                            || negb (de_name e =? new)%string)
             (fs_entries fs)))
       (fs_ops fs ++ [OpRename old new])%list)
  else (Some (PathError "rename" (Join dir old)), fs).

(** [os.OpenFile(path, O_WRONLY|O_CREATE|O_TRUNC [|O_EXCL], perm)]: with
    [excl] an existing entry is an error; without it an existing file is
    emptied.  A missing entry is created empty. *)
Definition OpenFile (dir name : string) (excl : bool) (fs : FS)
  : option error * FS :=
  match find (fun e => (de_name e =? name)%string) (fs_entries fs) with
  | Some e =>
      if excl then (Some (PathError "open" (Join dir name)), fs)
      else
        match de_data e with
        | None => (Some (PathError "open" (Join dir name)), fs)
        | Some _ =>
            (None,
             mkFS (fs_listable fs) (fs_writable fs)
               (map (fun x => if (de_name x =? name)%string
                              then mkEntry name (Some "") else x)
                  (fs_entries fs))
               (fs_ops fs ++ [OpTruncate name])%list)
        end
  | None =>
      if fs_writable fs then
        (None,
         mkFS (fs_listable fs) (fs_writable fs)
           (fs_entries fs ++ [mkEntry name (Some "")])%list
           (fs_ops fs ++ [OpCreate name])%list)
      else (Some (PathError "open" (Join dir name)), fs)
  end.

(** Writing [data] to the file just opened (and emptied) at [name]. *)
Definition WriteFile (name data : string) (fs : FS) : FS :=
  mkFS (fs_listable fs) (fs_writable fs)
    (map (fun x => if (de_name x =? name)%string
                   then mkEntry name (Some data) else x)
       (fs_entries fs))
    (fs_ops fs ++ [OpWrite name data])%list.

(** What [f.Write(data)] does on an open file: it writes all the data
    and returns no error, or it stops with an error after some part of
    the data has reached the file. *)
Inductive WriteResult : Type :=
| WriteOk
| WriteFailed (stored : string) (e : error).

(** The behaviour of the file once it is open: the result of the
    [Write] of some data, and the error of the [Close]. *)
Record FileIO : Type := mkFileIO {
  io_write : string -> WriteResult;
  io_close : option error
}.

(** [safeWriteFile]: like [os.WriteFile] but fails if the file exists.
    The file is closed in every case; the error of the write is
    preferred over the error of the close. *)
Definition safeWriteFile (dir name data : string) (io : FileIO) (fs : FS)
  : option error * FS :=
  match OpenFile dir name true fs with
  | (Some e, fs') => (Some e, fs')
  | (None, fs') =>
      match io_write io data with
      | WriteFailed stored werr => (Some werr, WriteFile name stored fs')
      | WriteOk => (io_close io, WriteFile name data fs')
      end
  end.

(** ** Discovery of migration files *)

Record migrationFile : Type := mkFile {
  Path : string;
  Name : string;
  Content : string;
  ID : MigrationID;
  Slug : string;
  idRaw : string
}.

(** The first loop of [available]: parse each name, read each match. *)
Fixpoint read_migrations (dir : string) (files : list DirEntry)
  : result (list migrationFile) * list LogLine :=
  match files with
  | [] => (Ok [], [])
  | f :: rest =>
      let name := de_name f in
      match reFilename name with
      | None =>
          let (r, lg) := read_migrations dir rest in
          (r, Debugf "Ignoring non-migration file: %s" [ArgString name] :: lg)
      | Some (id, slug) =>
          let path := Join dir name in
          match de_data f with
          | None => (Err (PathError "read" path), [])
          | Some content =>
              match mustID id with
              | Ok i =>
                  let (r, lg) := read_migrations dir rest in
                  (match r with
                   | Ok ms => Ok (mkFile path name content i slug id :: ms)
                   | other => other
                   end, lg)
              | Err e | Panic e => (Panic e, [])
              end
          end
      end
  end.

(** The second loop of [available]: [seen] maps the IDs met so far to
    their files.  The message of the error names both files. *)
Fixpoint check_duplicates (seen ms : list migrationFile) : option error :=
  match ms with
  | [] => None
  | m :: rest =>
      match find (fun o => ID o =? ID m) seen with
      | Some other =>
          Some (Errorf (Name other ++ ", " ++ Name m) ErrDuplicateID)
      | None => check_duplicates (m :: seen) rest
      end
  end.

Definition available (dir : string) (fs : FS)
  : result (list migrationFile) * list LogLine :=
  match ReadDir dir fs with
  | Ok files =>
      match read_migrations dir files with
      | (Ok ms, lg) =>
          match check_duplicates [] ms with
          | Some e => (Err e, lg)
          | None => (Ok ms, lg)
          end
      | other => other
      end
  | Err e => (Err (Errorf "could not list migration files" e), [])
  | Panic e => (Panic e, [])
  end.

(** ** Naming and renumbering *)

Definition idWidth (files : list migrationFile) : Z :=
  fold_left
    (fun width f => let w := Width (ID f) in if width <? w then w else width)
    files 0.

(** The loop of [Renumber] that collects the renames. *)
Fixpoint plan_renames (width : Z) (files : list migrationFile)
  : list (string * string) :=
  match files with
  | [] => []
  | f :: rest =>
      if len (idRaw f) =? width then plan_renames width rest
      else (Name f, filename width (ID f) (Slug f)) :: plan_renames width rest
  end.

(** The loop of [Renumber] that performs them, stopping at the first
    error. *)
Fixpoint do_renames (dir : string) (renames : list (string * string)) (fs : FS)
  : option error * FS :=
  match renames with
  | [] => (None, fs)
  | (from, to) :: rest =>
      match Rename dir from to fs with
      | (Some e, fs') => (Some e, fs')
      | (None, fs') => do_renames dir rest fs'
      end
  end.

Definition Renumber (dir : string) (write : bool) (fs : FS)
  : result unit * FS * list LogLine :=
  match available dir fs with
  | (Ok files, lg) =>
      let width := idWidth files in
      let renames := plan_renames width files in
      match renames with
      | [] => (Ok tt, fs, (lg ++ [Infof "Nothing to do." []])%list)
      | _ :: _ =>
          let lg1 :=
            (lg ++ [Infof "Renames:" [];
                    InfofTable ["Old"; "->"; "New"]
                      (map (fun r => [fst r; "->"; snd r]) renames)])%list in
          if negb write then
            (Ok tt, fs,
             (lg1 ++ [Infof "Skipping renames because write is off" []])%list)
          else
            match do_renames dir renames fs with
            | (Some e, fs') => (Err e, fs', (lg1 ++ [Infof "Renaming files" []])%list)
            | (None, fs') =>
                (Ok tt, fs',
                 (lg1 ++ [Infof "Renaming files" []; Infof "Done!" []])%list)
            end
      end
  | (Err e, lg) => (Err e, fs, lg)
  | (Panic e, lg) => (Panic e, fs, lg)
  end.

(** ** Creation of migration files *)

Record TemplateData : Type := mkData {
  td_ID : MigrationID;
  td_Slug : string
}.

(** A parsed [text/template]: executing it on the data writes some
    output and may fail. *)
Definition Template : Type := TemplateData -> string * option error.

(** [NewFile].  [now] is [time.Now().Unix()] and [defaultTemplate] the
    template parsed from the embedded [templates/new.sql]. *)
Definition NewFile (now : Z) (defaultTemplate : Template)
    (dir : string) (id : MigrationID) (slug : string)
    (tmpl : option Template) (fs : FS)
  : result string * FS * list LogLine :=
  let tmpl := match tmpl with None => defaultTemplate | Some t => t end in
  let chosen :=
    if id =? -1 then
      match NewMigrationID now with
      | (_, Some e) => Err (Errorf "invalid migration ID" e)
      | (i, None) => Ok i
      end
    else Ok id in
  match chosen with
  | Ok id =>
      match available dir fs with
      | (Ok files, lg) =>
          match find (fun f => ID f =? id) files with
          | Some f =>
              (Err (Errorf (FormatInt id ++ ": " ++ Name f) ErrDuplicateID),
               fs, lg)
          | None =>
              let slug := slugify slug in
              let name := filename (idWidth files) id slug in
              let path := Join dir name in
              let data := mkData id slug in
              match OpenFile dir name false fs with
              | (Some e, fs') => (Err e, fs', lg)
              | (None, fs') =>
                  let (out, err) := tmpl data in
                  (match err with Some e => Err e | None => Ok path end,
                   WriteFile name out fs', lg)
              end
          end
      | (Err e, lg) => (Err e, fs, lg)
      | (Panic e, lg) => (Panic e, fs, lg)
      end
  | Err e => (Err e, fs, [])
  | Panic e => (Panic e, fs, [])
  end.

(** ** The database *)

Record migrationRecord : Type := mkRecord {
  rec_ID : MigrationID;
  rec_Slug : string;
  rec_RunAt : Z
}.

Inductive SqlArg : Type :=
| SqlID (id : MigrationID)
| SqlText (s : string).

(** What the database does with the calls of [database/sql].  [store] is
    the state of the database, [rows] the result of a query.  A statement
    run outside a transaction may leave effects behind even when it
    fails, so [drv_exec] always returns a state. *)
Record Driver (store rows : Type) : Type := mkDriver {
  drv_query : string -> store -> error + rows;
  drv_scan : rows -> error + list migrationRecord;
  drv_exec : string -> list SqlArg -> store -> option error * store;
  drv_begin : store -> option error;
  drv_commit : store -> option error
}.

Arguments drv_query {store rows} d _ _.
Arguments drv_scan {store rows} d _.
Arguments drv_exec {store rows} d _ _ _.
Arguments drv_begin {store rows} d _.
Arguments drv_commit {store rows} d _.

(** The calls issued to the database, in order. *)
Inductive DbEvent : Type :=
| EvQuery (query : string)
| EvBegin
| EvExec (inTx : bool) (query : string) (args : list SqlArg)
| EvCommit.

(** The [*sql.DB] handle: the committed state and the calls so far. *)
Record Conn (store : Type) : Type := mkConn {
  committed : store;
  trace : list DbEvent
}.

Arguments mkConn {store} _ _.
Arguments committed {store} c.
Arguments trace {store} c.

(** The two handles of [database/sql]: the database itself, whose state
    is in the connection, and an open transaction with its uncommitted
    state. *)
Inductive DB : Type := TheDB.

Record Tx (store : Type) : Type := mkTx {
  tx_state : store
}.

Arguments mkTx {store} _.
Arguments tx_state {store} t.

Definition qApplied : string :=
  "SELECT * FROM schema_migrations ORDER BY id asc".

Definition claimQuery : string := "SELECT _drift_claim_migration($1,$2)".

Definition undefined_table : string := "42P01".

Section Database.

Context {store rows : Type} (drv : Driver store rows).

Definition record_event (ev : DbEvent) (c : Conn store) : Conn store :=
  mkConn (committed c) (trace c ++ [ev])%list.

Definition Query (q : string) (c : Conn store) : (error + rows) * Conn store :=
  (drv_query drv q (committed c), record_event (EvQuery q) c).

Definition BeginTx (c : Conn store) : (error + Tx store) * Conn store :=
  match drv_begin drv (committed c) with
  | Some e => (inl e, record_event EvBegin c)
  | None => (inr (mkTx (committed c)), record_event EvBegin c)
  end.

(** The [Queryable] interface: [ExecContext] on a handle gives the
    error, the handle after the call and the connection after it. *)
Class Queryable (H : Type) : Type :=
  ExecContext :
    H -> string -> list SqlArg -> Conn store -> option error * H * Conn store.

(** On the database a statement acts on the committed state. *)
#[global] Instance DB_Queryable : Queryable DB :=
  fun h q args c =>
    let (err, s) := drv_exec drv q args (committed c) in
    (err, h, mkConn s (trace c ++ [EvExec false q args])%list).

(** In a transaction it acts on the state of the transaction. *)
#[global] Instance Tx_Queryable : Queryable (Tx store) :=
  fun tx q args c =>
    let (err, s) := drv_exec drv q args (tx_state tx) in
    (err, mkTx s, record_event (EvExec true q args) c).

Definition Commit (tx : Tx store) (c : Conn store) : option error * Conn store :=
  match drv_commit drv (tx_state tx) with
  | Some e => (Some e, record_event EvCommit c)
  | None => (None, mkConn (tx_state tx) (trace c ++ [EvCommit])%list)
  end.

(** *** The ledger *)

Definition applied (c : Conn store)
  : result (list migrationRecord) * Conn store :=
  let (r, c') := Query qApplied c in
  match r with
  | inl err =>
      match errors_As_PgError err with
      | Some code =>
          if (code =? undefined_table)%string then (Ok [], c')
          else (Err err, c')
      | None => (Err err, c')
      end
  | inr rs =>
      match drv_scan drv rs with
      | inl e => (Err e, c')
      | inr ms => (Ok ms, c')
      end
  end.

(** *** The executor *)

Definition claim {H : Type} {Q : Queryable H} (tx : H) (id : MigrationID)
    (slug : string) (c : Conn store) : option error * H * Conn store :=
  ExecContext tx claimQuery [SqlID id; SqlText slug] c.

Definition run {H : Type} {Q : Queryable H} (tx : H) (content : string)
    (c : Conn store) : option error * H * Conn store :=
  ExecContext tx content [] c.

Definition apply (f : migrationFile) (c : Conn store)
  : option error * Conn store :=
  if skipTx (Content f) then
    let '(err, _, c') := run TheDB (Content f) c in (err, c')
  else
    match BeginTx c with
    | (inl e, c0) => (Some e, c0)
    | (inr tx, c0) =>
        match claim tx (ID f) (Slug f) c0 with
        | (Some e, _, c1) => (Some e, c1)
        | (None, tx1, c1) =>
            match run tx1 (Content f) c1 with
            | (Some e, _, c2) => (Some e, c2)
            | (None, tx2, c2) => Commit tx2 c2
            end
        end
    end.

End Database.

(** *** The reconciler *)

(** [sort.Slice] with the comparison on IDs.  The model is an insertion
    sort; [available] has made the IDs distinct, and then the order of
    the result depends on the comparison alone. *)
Fixpoint insert_by_ID (f : migrationFile) (l : list migrationFile)
  : list migrationFile :=
  match l with
  | [] => [f]
  | x :: r => if ID x <? ID f then x :: insert_by_ID f r else f :: l
  end.

Definition sort_by_ID (l : list migrationFile) : list migrationFile :=
  fold_right insert_by_ID [] l.

Definition diff (applied : list migrationRecord) (files : list migrationFile)
  : list migrationFile :=
  let skip := map rec_ID applied in
  let needed :=
    filter (fun f => negb (existsb (Z.eqb (ID f)) skip)) files in
  sort_by_ID needed.

Section Migrate.

Context {store rows : Type} (drv : Driver store rows).

(** The test [upto != nil && f.ID > *upto] of the loop of [Migrate]:
    the ceiling that excludes [f], if any. *)
Definition skipped_by (upto : option MigrationID) (f : migrationFile)
  : option MigrationID :=
  match upto with
  | Some u => if u <? ID f then Some u else None
  | None => None
  end.

(** The loop of [Migrate] over the needed files.  The first argument
    of the skip message is the pointer [upto] itself. *)
Fixpoint migrate_loop (upto : option MigrationID)
    (needed : list migrationFile) (c : Conn store)
  : option error * Conn store * list LogLine :=
  match needed with
  | [] => (None, c, [])
  | f :: rest =>
      match skipped_by upto f with
      | Some u =>
          let '(r, c', lg) := migrate_loop upto rest c in
          (r, c',
           Debugf "Skipping migration because of upto=%d: %s"
             [ArgIDPointer u; ArgString (Name f)] :: lg)
      | None =>
          match apply drv f c with
          | (Some e, c') =>
              (Some e, c',
               [Infof "Applying migration: %s" [ArgString (Name f)]])
          | (None, c') =>
              let '(r, c'', lg) := migrate_loop upto rest c' in
              (r, c'',
               Infof "Applying migration: %s" [ArgString (Name f)] :: lg)
          end
      end
  end.

Definition Migrate (dir : string) (upto : option MigrationID)
    (fs : FS) (c : Conn store)
  : result unit * Conn store * list LogLine :=
  match applied drv c with
  | (Ok records, c1) =>
      match available dir fs with
      | (Ok files, lg) =>
          let needed := diff records files in
          match migrate_loop upto needed c1 with
          | (Some e, c2, lg2) => (Err e, c2, (lg ++ lg2)%list)
          | (None, c2, lg2) =>
              (Ok tt, c2,
               (lg ++ lg2 ++ [Infof "All migrations applied!" []])%list)
          end
      | (Err e, lg) =>
          (Err (Errorf "could not get available migrations" e), c1, lg)
      | (Panic e, lg) => (Panic e, c1, lg)
      end
  | (Err e, c1) =>
      (Err (Errorf "could not get applied migrations" e), c1, [])
  | (Panic e, c1) => (Panic e, c1, [])
  end.

End Migrate.

(** ** Notions of the specification *)

(** The number of digits of the decimal numeral of a natural number:
    one more for every division by ten that leaves something. *)
Fixpoint count_digits (fuel : nat) (n : Z) : nat :=
  match fuel with
  | O => 1
  | S fuel' => if n <? 10 then 1%nat else S (count_digits fuel' (n / 10))
  end.

Definition digit_length (n : Z) : Z :=
  Z.of_nat (count_digits (Z.to_nat (Z.log2 n)) n).

(** The ID written in decimal and padded on the left with zeros up to
    [width] characters. *)
Definition zero_pad (id : Z) (width : Z) : string :=
  repeat_char "0" (Z.to_nat (width - digit_length id)) ++ FormatUint id.

(** Unsigned little-endian value of a list of digits. *)
Definition le_val (l : list ascii) : Z :=
  fold_right (fun c a => digit_val c + 10 * a) 0 l.

Definition in_int64 (i : Z) : Prop := minInt64 <= i <= maxInt64.

(** Parsing a file name back, as [available] does: the pattern, then
    [mustID] on the digits. *)
Definition reparse (name : string) : option (result MigrationID * string) :=
  match reFilename name with
  | Some (raw, slug) => Some (mustID raw, slug)
  | None => None
  end.

(** The largest digit length among the IDs of the files; 0 when there
    is no file. *)
Definition max_digit_length (files : list migrationFile) : Z :=
  fold_right Z.max 0 (map (fun f => digit_length (ID f)) files).

(** The width as the specification words it: the largest digit length,
    and at least 1. *)
Definition spec_width (files : list migrationFile) : Z :=
  Z.max 1 (max_digit_length files).

Definition valid_ID (id : MigrationID) : Prop := 0 <= id <= maxInt64.

(** The migration file that [available] builds from one directory entry,
    when the entry's name matches, its content can be read and its ID
    fits. *)
Definition file_of_entry (dir : string) (e : DirEntry) : option migrationFile :=
  match reFilename (de_name e), de_data e with
  | Some (raw, slug), Some content =>
      match mustID raw with
      | Ok i => Some (mkFile (Join dir (de_name e)) (de_name e) content i slug raw)
      | _ => None
      end
  | _, _ => None
  end.

Fixpoint files_of (dir : string) (es : list DirEntry) : list migrationFile :=
  match es with
  | [] => []
  | e :: r =>
      match file_of_entry dir e with
      | Some f => f :: files_of dir r
      | None => files_of dir r
      end
  end.

(** The log lines of [available] for the entries that are not migration
    files. *)
Fixpoint ignored_log (es : list DirEntry) : list LogLine :=
  match es with
  | [] => []
  | e :: r =>
      match reFilename (de_name e) with
      | None =>
          Debugf "Ignoring non-migration file: %s" [ArgString (de_name e)]
            :: ignored_log r
      | Some _ => ignored_log r
      end
  end.

(** An entry that [available] can take in: either it is no migration
    file, or it yields one. *)
Definition entry_ok (dir : string) (e : DirEntry) : Prop :=
  reFilename (de_name e) = None \/ exists f, file_of_entry dir e = Some f.

(** The directive as the specification words it: some line of the
    content, leading white space removed, is exactly the directive. *)
Definition is_blank (c : ascii) : bool :=
  existsb (Ascii.eqb c) [" "; "009"; "011"; "012"; "013"]%char.

Fixpoint trim_left (s : string) : string :=
  match s with
  | "" => ""
  | String c r => if is_blank c then trim_left r else s
  end.

Fixpoint split_lines (s : string) : list string :=
  match s with
  | "" => [""]
  | String c r =>
      if Ascii.eqb c LF then "" :: split_lines r
      else
        match split_lines r with
        | l :: ls => String c l :: ls
        | [] => [String c ""]
        end
  end.

Definition spec_no_transaction (content : string) : bool :=
  existsb (fun l => (trim_left l =? noTxDirective)%string)
    (split_lines content).

(** What the code looks for: the directive right at the start of the
    content or right after a line feed, whatever follows it. *)
Definition directive_at_line_start (content : string) : Prop :=
  exists pre post,
    content = pre ++ noTxDirective ++ post /\
    (pre = "" \/ exists p, pre = p ++ String LF "").

(** The two statements that [apply] runs inside a transaction. *)
Definition evClaim (f : migrationFile) : DbEvent :=
  EvExec true claimQuery [SqlID (ID f); SqlText (Slug f)].

Definition evBody (f : migrationFile) : DbEvent :=
  EvExec true (Content f) [].

Definition logApplying (f : migrationFile) : LogLine :=
  Infof "Applying migration: %s" [ArgString (Name f)].

Definition logSkipping (u : MigrationID) (f : migrationFile) : LogLine :=
  Debugf "Skipping migration because of upto=%d: %s"
    [ArgIDPointer u; ArgString (Name f)].

(** The pending set: what [Migrate] computes with [diff] and the test
    on [upto] in its loop. *)
Definition kept (upto : option MigrationID) (f : migrationFile) : bool :=
  match skipped_by upto f with
  | None => true
  | Some _ => false
  end.

Definition pending (records : list migrationRecord)
    (files : list migrationFile) (upto : option MigrationID)
  : list migrationFile :=
  filter (kept upto) (diff records files).

(** The files of [diff] that the ceiling leaves out. *)
Definition beyond (records : list migrationRecord)
    (files : list migrationFile) (upto : option MigrationID)
  : list migrationFile :=
  filter (fun f => negb (kept upto f)) (diff records files).

(** Applying files one after the other, stopping at the first error. *)
Fixpoint apply_all {store rows : Type} (drv : Driver store rows)
    (fl : list migrationFile) (c : Conn store) : option error * Conn store :=
  match fl with
  | [] => (None, c)
  | f :: r =>
      match apply drv f c with
      | (Some e, c') => (Some e, c')
      | (None, c') => apply_all drv r c'
      end
  end.

Definition result_of (o : option error) : result unit :=
  match o with
  | Some e => Err e
  | None => Ok tt
  end.

(** The names logged as being applied, and as being skipped. *)
Fixpoint applying_log (lg : list LogLine) : list string :=
  match lg with
  | [] => []
  | Infof fmt [ArgString n] :: r =>
      if (fmt =? "Applying migration: %s")%string then n :: applying_log r
      else applying_log r
  | _ :: r => applying_log r
  end.

Fixpoint skipping_log (lg : list LogLine) : list string :=
  match lg with
  | [] => []
  | Debugf fmt [ArgIDPointer _; ArgString n] :: r =>
      if (fmt =? "Skipping migration because of upto=%d: %s")%string
      then n :: skipping_log r
      else skipping_log r
  | _ :: r => skipping_log r
  end.

Definition ID_lt (a b : migrationFile) : Prop := ID a < ID b.
Definition ID_le (a b : migrationFile) : Prop := ID a <= ID b.

(** The name a directory entry has after renumbering to [width]: a
    migration file whose digits have another length gets the name that
    [filename] derives; every other entry keeps its name. *)
Definition renumbered_name (width : Z) (name : string) : string :=
  match reFilename name with
  | Some (raw, slug) =>
      match mustID raw with
      | Ok id => if len raw =? width then name else filename width id slug
      | _ => name
      end
  | None => name
  end.

Definition renumbered (width : Z) (e : DirEntry) : DirEntry :=
  mkEntry (renumbered_name width (de_name e)) (de_data e).

(** The effect of a list of renames on one entry: the first rename
    whose source is the name of the entry. *)
Definition apply_renames (rs : list (string * string)) (e : DirEntry)
  : DirEntry :=
  match find (fun r => (fst r =? de_name e)%string) rs with
  | Some r => mkEntry (snd r) (de_data e)
  | None => e
  end.

(** A migration file as discovery builds it: its name parses to its raw
    digits and its slug, and the digits to its ID. *)
Definition parsed_file (f : migrationFile) : Prop :=
  reFilename (Name f) = Some (idRaw f, Slug f) /\
  mustID (idRaw f) = Ok (ID f).

(** The file that discovery builds for a file after renumbering. *)
Definition renumbered_file (dir : string) (width : Z) (f : migrationFile)
  : migrationFile :=
  if len (idRaw f) =? width then f
  else
    let name := filename width (ID f) (Slug f) in
    mkFile (Join dir name) name (Content f) (ID f) (Slug f)
      (zero_pad (ID f) width).

(** ** Example directories and databases *)

Definition example_dir : string := "migrations".

(** Two migration files numbered with different widths, and a file that
    is no migration. *)
Definition example_fs : FS :=
  mkFS true true
    [mkEntry "1-a.sql" (Some "select 1;");
     mkEntry "README.md" (Some "notes");
     mkEntry "020-b.sql" (Some "select 2;")]
    [].

(** A small database: the ledger table may be missing; a claim inserts
    a row and fails on a missing table or a duplicate ID; a statement
    that starts with [fail] fails, any other is recorded as run. *)
Record ToyStore : Type := mkToy {
  toy_table : bool;
  toy_rows : list migrationRecord;
  toy_ran : list string
}.

Definition toy_exec (q : string) (args : list SqlArg) (s : ToyStore)
  : option error * ToyStore :=
  if (q =? claimQuery)%string then
    match args with
    | [SqlID id; SqlText slug] =>
        if toy_table s && negb (existsb (Z.eqb id) (map rec_ID (toy_rows s)))
        then (None,
              mkToy true (toy_rows s ++ [mkRecord id slug 0])%list (toy_ran s))
        else (Some (PgError "23505"), s)
    | _ => (Some (DriverError "bad arguments"), s)
    end
  else if prefix "fail" q then (Some (PgError "42601"), s)
  else (None, mkToy (toy_table s) (toy_rows s) (toy_ran s ++ [q])%list).

Definition toy_driver : Driver ToyStore (list migrationRecord) :=
  mkDriver ToyStore (list migrationRecord)
    (fun _ s => if toy_table s then inr (toy_rows s)
                else inl (PgError undefined_table))
    (fun rs => inr rs)
    toy_exec
    (fun _ => None)
    (fun _ => None).

(** The database before the first migration, and after the bootstrap. *)
Definition toy_fresh : Conn ToyStore := mkConn (mkToy false [] []) [].
Definition toy_ready : Conn ToyStore :=
  mkConn (mkToy true [mkRecord 0 "init" 0] []) [].

Definition example_file (id : MigrationID) (slug content : string)
  : migrationFile :=
  mkFile (Join example_dir (filename 1 id slug)) (filename 1 id slug)
    content id slug (FormatUint id).

(** A directory with the bootstrap migration already applied, one good
    migration, one whose body fails, and one after it. *)
Definition example_run_fs : FS :=
  mkFS true true
    [mkEntry "0-init.sql" (Some "--drift:no-transaction");
     mkEntry "5-ok.sql" (Some "create table t ();");
     mkEntry "7-bad.sql" (Some "fail here");
     mkEntry "9-later.sql" (Some "create table u ();")]
    [].

Definition file_ok : migrationFile :=
  mkFile "migrations/5-ok.sql" "5-ok.sql" "create table t ();" 5 "ok" "5".
Definition file_bad : migrationFile :=
  mkFile "migrations/7-bad.sql" "7-bad.sql" "fail here" 7 "bad" "7".
Definition file_later : migrationFile :=
  mkFile "migrations/9-later.sql" "9-later.sql" "create table u ();" 9
    "later" "9".

(** The scenario of the specification: [0-init.sql] is in the ledger,
    [5-add_users.sql] is not. *)
Definition file_init : migrationFile :=
  mkFile "migrations/0-init.sql" "0-init.sql" "--drift:no-transaction" 0
    "init" "0".
Definition file_add_users : migrationFile :=
  mkFile "migrations/5-add_users.sql" "5-add_users.sql"
    "create table users ();" 5 "add_users" "5".

(** Two files with the same ID next to a file that cannot be read, and
    next to a file whose number does not fit in 64 bits. *)
Definition dup_unreadable_fs : FS :=
  mkFS true true
    [mkEntry "1-a.sql" (Some "select 1;");
     mkEntry "01-b.sql" (Some "select 2;");
     mkEntry "2-c.sql" None]
    [].

Definition dup_overflow_fs : FS :=
  mkFS true true
    [mkEntry "1-a.sql" (Some "select 1;");
     mkEntry "01-b.sql" (Some "select 2;");
     mkEntry "99999999999999999999-c.sql" (Some "select 3;")]
    [].

Definition dup_fs : FS :=
  mkFS true true
    [mkEntry "1-a.sql" (Some "select 1;");
     mkEntry "01-b.sql" (Some "select 2;")]
    [].


Definition fixed_template : Template :=
  fun _ => ("-- Write your migration here.", None).

(** The renumbering scenario of the specification. *)
Definition scenario_fs : FS :=
  mkFS true true
    [mkEntry "1-a.sql" (Some "select 1;");
     mkEntry "20-b.sql" (Some "select 2;");
     mkEntry "300-c.sql" (Some "select 3;")]
    [].

(** A file on which writing and closing succeed, and one on which the
    write stops half way and the close fails too. *)
Definition healthy_io : FileIO := mkFileIO (fun _ => WriteOk) None.

Definition failing_io : FileIO :=
  mkFileIO (fun _ => WriteFailed "sel" (PathError "write" "disk full"))
    (Some (PathError "close" "disk full")).

(** ** Further functions of the package and of the command *)


(** [os.MkdirAll(dir, 0o755)] on a path where the directory exists
    ([Some]) or where nothing exists ([None]); [creatable] tells whether
    the missing directories can be made.  A new directory is empty and
    can be listed and written by its owner. *)
Definition MkdirAll (dir : string) (creatable : bool) (d : option FS)
  : error + FS :=
  match d with
  | Some fs => inr fs
  | None =>
      if creatable then inr (mkFS true true [] [])
      else inl (PathError "mkdir" dir)
  end.

(** [Setup].  [initContent] is the embedded [templates/init.sql] and
    [io] the behaviour of the new file once it is open.  The state of
    the directory is returned with the result. *)
Definition Setup (initContent : string) (io : FileIO) (creatable : bool)
    (migrationsDir : string) (d : option FS) : result string * option FS :=
  match MkdirAll migrationsDir creatable d with
  | inl e => (Err (Errorf "could not create migrations directory" e), d)
  | inr fs =>
      let name := FormatInt 0 ++ "-" ++ "init" ++ ".sql" in
      let path := Join migrationsDir name in
      match safeWriteFile migrationsDir name initContent io fs with
      | (Some e, fs') =>
          (Err (Errorf "could not create migration file" e), Some fs')
      | (None, fs') => (Ok path, Some fs')
      end
  end.

(** The test [uptoID >= 0] of [migrateCmd], which turns the value of
    the flag (default -1) into the optional ceiling of [Migrate]. *)
Definition ceiling_of_flag (uptoID : MigrationID) : option MigrationID :=
  if 0 <=? uptoID then Some uptoID else None.

(** *** The command line's implementation of [IO] *)

Definition SilentLevel : Z := 0.
Definition InfoLevel : Z := 1.
Definition DebugLevel : Z := 2.

(** What has been written to a stream: for each call of [fmt.Fprintf]
    its format and its arguments. *)
Definition Stream : Type := list (string * list LogArg).

Record CLI : Type := mkCLI {
  cli_stdout : Stream;
  cli_stderr : Stream;
  cli_verbosity : Z
}.

Inductive Writer : Type := Stdout | Stderr.

Definition newline : string := String LF "".

(** [(cli CLI).fwritef(w, level, format, args...)] *)
Definition fwritef (w : Writer) (level : Z) (format : string)
    (args : list LogArg) (cli : CLI) : CLI :=
  if cli_verbosity cli <? level then cli
  else
    match w with
    | Stdout =>
        mkCLI (cli_stdout cli ++ [((format ++ newline)%string, args)])%list
          (cli_stderr cli) (cli_verbosity cli)
    | Stderr =>
        mkCLI (cli_stdout cli)
          (cli_stderr cli ++ [((format ++ newline)%string, args)])%list
          (cli_verbosity cli)
    end.

Definition CLI_Infof (format : string) (args : list LogArg) (cli : CLI) : CLI :=
  fwritef Stderr InfoLevel format args cli.

Definition CLI_Debugf (format : string) (args : list LogArg) (cli : CLI) : CLI :=
  fwritef Stderr DebugLevel format args cli.

Definition CLI_Printf (format : string) (args : list LogArg) (cli : CLI) : CLI :=
  fwritef Stdout SilentLevel format args cli.

(** The calls that the package makes on its [IO], played on the command
    line's implementation.  [render] is the table writer: [Renumber]
    passes the rendered table as the format of an [Infof]. *)
Definition emit (render : list string -> list (list string) -> string)
    (cli : CLI) (l : LogLine) : CLI :=
  match l with
  | Infof format args => CLI_Infof format args cli
  | Debugf format args => CLI_Debugf format args cli
  | InfofTable header rows => CLI_Infof (render header rows) [] cli
  end.

Definition level_of (l : LogLine) : Z :=
  match l with
  | Debugf _ _ => DebugLevel
  | _ => InfoLevel
  end.

Definition written (render : list string -> list (list string) -> string)
    (l : LogLine) : string * list LogArg :=
  match l with
  | Infof format args => (format ++ newline, args)
  | Debugf format args => (format ++ newline, args)
  | InfofTable header rows => (render header rows ++ newline, [])
  end.

(** *** Notions used in the further properties *)

(** A directory with one more entry. *)
Definition with_entry (e : DirEntry) (fs : FS) : FS :=
  mkFS (fs_listable fs) (fs_writable fs) (e :: fs_entries fs) (fs_ops fs).

(** What identifies a migration apart from its file name. *)
Definition identity (f : migrationFile) : MigrationID * string * string :=
  (ID f, Slug f, Content f).

Fixpoint no_separator (s : string) : bool :=
  match s with
  | "" => true
  | String c r => negb (is_separator c) && no_separator r
  end.

(** A normalized slug: every separator in it is an underscore, and no
    two underscores are adjacent. *)
Fixpoint normalized (after_underscore : bool) (s : string) : bool :=
  match s with
  | "" => true
  | String c r =>
      if is_separator c
      then Ascii.eqb c "_" && negb after_underscore && normalized true r
      else normalized false r
  end.

Definition op_of_rename (r : string * string) : FsOp :=
  OpRename (fst r) (snd r).

(** The file that discovery builds for the file that [NewFile] writes. *)
Definition new_file (dir : string) (width : Z) (id : MigrationID)
    (slug content : string) : migrationFile :=
  let name := filename width id (slugify slug) in
  mkFile (Join dir name) name content id (slugify slug) (zero_pad id width).

(** A database whose commit fails. *)
Definition toy_no_commit : Driver ToyStore (list migrationRecord) :=
  mkDriver ToyStore (list migrationRecord)
    (drv_query toy_driver) (drv_scan toy_driver) toy_exec
    (fun _ => None)
    (fun _ => Some (DriverError "commit failed")).

(** A directory whose numbering is consistent at width 3. *)
Definition consistent_fs : FS :=
  mkFS true true
    [mkEntry "100-a.sql" (Some "select 1;");
     mkEntry "200-b.sql" (Some "select 2;")]
    [].

(** * Properties *)

(** ** Sanity checks of the embedding on concrete inputs *)

Example slugify_example :
  slugify "add  users-table.v2" = "add_users_table_v2".
Proof. reflexivity. Qed.

Example filename_examples :
  filename 5 42 "x" = "00042-x.sql" /\
  filename 0 (-2) "x" = "-2-x.sql" /\
  filename 3 (-2) "x" = "-02-x.sql" /\
  filename 1000001 5 "x" = "%!(BADWIDTH)5-x.sql" /\
  filename (-4) 5 "x" = "5   -x.sql".
Proof. repeat split; vm_compute; reflexivity. Qed.

Example reFilename_examples :
  reFilename "00042-a-b.sql.sql" = Some ("00042", "a-b.sql") /\
  reFilename "42.sql" = None /\
  mustID "00042" = Ok 42 /\
  mustID "9223372036854775808" =
    Panic (Errorf "not a valid integer"
             (NumError "ParseInt" "9223372036854775808" true)).
Proof. repeat split; vm_compute; reflexivity. Qed.

(** ** Strings *)

Lemma append_nil_r (s : string) : s ++ "" = s.
Proof. induction s; simpl; congruence. Qed.

Lemma append_assoc (a b c : string) : (a ++ b) ++ c = a ++ (b ++ c).
Proof. induction a; simpl; congruence. Qed.

Lemma length_append (a b : string) :
  String.length (a ++ b) = (String.length a + String.length b)%nat.
Proof. induction a; simpl; congruence. Qed.

Lemma length_repeat_char (c : ascii) (n : nat) :
  String.length (repeat_char c n) = n.
Proof. induction n; simpl; congruence. Qed.

Lemma prefix_iff (a s : string) :
  prefix a s = true <-> exists post, s = a ++ post.
Proof.
  revert s; induction a as [|c a IH]; intros s.
  - split; [intros _; exists s; reflexivity | intros _; destruct s; reflexivity].
  - destruct s as [|d s]; simpl.
    + split; [discriminate | intros [post H]; discriminate].
    + destruct (ascii_dec c d) as [->|Hne].
      * rewrite IH. split; intros [post H]; exists post; congruence.
      * split; [discriminate | intros [post H]; congruence].
Qed.

Lemma length_string_of_list (l : list ascii) :
  String.length (string_of_list_ascii l) = List.length l.
Proof. induction l; simpl; congruence. Qed.

Lemma string_of_list_app (l1 l2 : list ascii) :
  string_of_list_ascii (l1 ++ l2)
  = string_of_list_ascii l1 ++ string_of_list_ascii l2.
Proof. induction l1; simpl; congruence. Qed.

Lemma Forall_In {A} (P : A -> Prop) (l : list A) (x : A) :
  Forall P l -> In x l -> P x.
Proof. intros H. now apply Forall_forall. Qed.

(** ** Slugs *)

Lemma replace_runs_twice (s : string) :
  replace_runs true (replace_runs true s) = replace_runs true s /\
  replace_runs false (replace_runs false s) = replace_runs false s.
Proof.
  induction s as [|c r [IHt IHf]]; [split; reflexivity|].
  simpl. destruct (is_separator c) eqn:Hc.
  - split; [exact IHt|].
    simpl. change (is_separator "_") with true. cbv iota. now rewrite IHt.
  - simpl. rewrite Hc, IHf. split; reflexivity.
Qed.

(** C10. Slug normalization is idempotent: normalizing a slug that has
    already been normalized leaves it unchanged, for every input
    string. *)
Theorem slugify_idempotent (s : string) : slugify (slugify s) = slugify s.
Proof. unfold slugify. apply replace_runs_twice. Qed.

(** A normalized slug has no separator other than single underscores. *)
Lemma slugify_no_newline (b : bool) (s : string) :
  no_newline (replace_runs b s) = true.
Proof.
  revert b; induction s as [|c r IH]; intros b; [reflexivity|].
  simpl. destruct (is_separator c) eqn:Hc.
  - destruct b; simpl; auto.
  - simpl. rewrite IH.
    destruct (Ascii.eqb_spec c LF) as [->|]; [discriminate Hc | reflexivity].
Qed.

(** ** Decimal numerals *)

Lemma digit_char_ok (d : Z) :
  0 <= d < 10 -> is_digit (digit_char d) = true /\ digit_val (digit_char d) = d.
Proof.
  intros H.
  assert (d = 0 \/ d = 1 \/ d = 2 \/ d = 3 \/ d = 4 \/ d = 5 \/ d = 6
          \/ d = 7 \/ d = 8 \/ d = 9) as Hd by lia.
  repeat (destruct Hd as [->|Hd]; [split; reflexivity|]).
  subst; split; reflexivity.
Qed.

Lemma is_digit_not_sign (c : ascii) :
  is_digit c = true -> Ascii.eqb c "+" = false /\ Ascii.eqb c "-" = false.
Proof.
  intros H; split.
  - destruct (Ascii.eqb_spec c "+") as [->|]; [discriminate H | reflexivity].
  - destruct (Ascii.eqb_spec c "-") as [->|]; [discriminate H | reflexivity].
Qed.

Lemma div10_lt_pow2 (u : Z) (k : nat) :
  10 <= u < 2 ^ Z.of_nat (S k) -> 0 <= u / 10 < 2 ^ Z.of_nat k.
Proof.
  intros [Hlo Hhi]. rewrite Nat2Z.inj_succ, Z.pow_succ_r in Hhi by lia.
  split; [apply Z.div_pos; lia|].
  apply Z.div_lt_upper_bound; lia.
Qed.

Lemma rev_digits_eq (k : nat) (u : Z) :
  rev_digits (S k) u
  = if u <? 10 then [digit_char u]
    else digit_char (u mod 10) :: rev_digits k (u / 10).
Proof. reflexivity. Qed.

Lemma rev_digits_spec (k : nat) (u : Z) :
  0 <= u < 2 ^ Z.of_nat (S k) ->
  forallb is_digit (rev_digits (S k) u) = true /\
  le_val (rev_digits (S k) u) = u /\
  List.length (rev_digits (S k) u) = count_digits k u.
Proof.
  revert u; induction k as [|k IH]; intros u Hu;
    rewrite rev_digits_eq; destruct (Z.ltb_spec u 10) as [Hlt|Hge].
  - destruct (digit_char_ok u) as [Hd Hv]; [lia|].
    cbn [forallb le_val fold_right List.length count_digits].
    rewrite Hd, Hv. repeat split; lia.
  - simpl in Hu. lia.
  - destruct (digit_char_ok u) as [Hd Hv]; [lia|].
    cbn [forallb le_val fold_right List.length count_digits].
    rewrite Hd, Hv. destruct (Z.ltb_spec u 10); [|lia]. repeat split; lia.
  - destruct (IH (u / 10)) as (Hall & Hval & Hlen);
      [apply div10_lt_pow2; lia|].
    destruct (digit_char_ok (u mod 10)) as [Hd Hv];
      [apply Z.mod_pos_bound; lia|].
    cbn [forallb le_val fold_right List.length].
    fold (le_val (rev_digits (S k) (u / 10))).
    rewrite Hd, Hv, Hall, Hval, Hlen.
    cbn [count_digits]. destruct (Z.ltb_spec u 10); [lia|].
    repeat split. pose proof (Z.div_mod u 10); lia.
Qed.

Lemma log2_fuel (u : Z) : 0 <= u -> 0 <= u < 2 ^ Z.of_nat (S (Z.to_nat (Z.log2 u))).
Proof.
  intros Hu. split; [assumption|].
  rewrite Nat2Z.inj_succ, Z2Nat.id by apply Z.log2_nonneg.
  destruct (Z.eq_dec u 0) as [->|Hne]; [reflexivity|].
  apply Z.log2_spec; lia.
Qed.

Lemma parse_digits_app (a b : string) (acc : Z) :
  parse_digits acc (a ++ b) = parse_digits (parse_digits acc a) b.
Proof. revert acc; induction a; intros acc; simpl; auto. Qed.

Lemma parse_digits_rev (l : list ascii) (acc : Z) :
  parse_digits acc (string_of_list_ascii (rev l))
  = acc * 10 ^ Z.of_nat (List.length l) + le_val l.
Proof.
  revert acc; induction l as [|c l IH]; intros acc.
  - simpl. lia.
  - cbn [rev]. rewrite string_of_list_app, parse_digits_app, IH.
    cbn [string_of_list_ascii parse_digits le_val fold_right List.length].
    fold (le_val l).
    rewrite Nat2Z.inj_succ, Z.pow_succ_r by lia. lia.
Qed.

Lemma all_digits_of_list (l : list ascii) :
  all_digits (string_of_list_ascii l) = forallb is_digit l.
Proof. induction l; simpl; congruence. Qed.

Lemma all_digits_app (a b : string) :
  all_digits (a ++ b) = all_digits a && all_digits b.
Proof.
  induction a; simpl; [reflexivity|]. rewrite IHa. now rewrite andb_assoc.
Qed.

Lemma forallb_rev {A} (p : A -> bool) (l : list A) :
  forallb p (rev l) = forallb p l.
Proof.
  induction l; simpl; [reflexivity|].
  rewrite forallb_app, IHl. simpl. rewrite andb_true_r. apply andb_comm.
Qed.

(** The decimal numeral of a natural number: digits only, at least one,
    its value is the number and its length the number's digit length. *)
Lemma FormatUint_spec (u : Z) :
  0 <= u ->
  all_digits (FormatUint u) = true /\
  parse_digits 0 (FormatUint u) = u /\
  len (FormatUint u) = digit_length u /\
  1 <= digit_length u.
Proof.
  intros Hu. unfold FormatUint, len, digit_length.
  destruct (rev_digits_spec _ u (log2_fuel u Hu)) as (Hall & Hval & Hlen).
  rewrite all_digits_of_list, forallb_rev, parse_digits_rev,
    length_string_of_list, length_rev, Hlen.
  repeat split; try assumption; try lia.
  destruct (Z.to_nat (Z.log2 u)); simpl; [lia|].
  destruct (u <? 10); lia.
Qed.

Lemma count_digits_bounds (fuel : nat) (n : Z) :
  0 < n < 2 ^ Z.of_nat (S fuel) ->
  10 ^ (Z.of_nat (count_digits fuel n) - 1) <= n
  < 10 ^ Z.of_nat (count_digits fuel n).
Proof.
  revert n; induction fuel as [|k IH]; intros n Hn.
  - simpl in *. lia.
  - cbn [count_digits]. destruct (Z.ltb_spec n 10) as [Hlt|Hge].
    + simpl. lia.
    + destruct (IH (n / 10)) as [Hlo Hhi].
      { pose proof (div10_lt_pow2 n (S k)) as H.
        assert (0 < n / 10) by (apply Z.div_str_pos; lia). lia. }
      rewrite Nat2Z.inj_succ.
      replace (Z.succ (Z.of_nat (count_digits k (n / 10))) - 1)
        with (Z.succ (Z.of_nat (count_digits k (n / 10)) - 1)) by lia.
      assert (1 <= Z.of_nat (count_digits k (n / 10))).
      { destruct k; simpl; [lia|]. destruct (n / 10 <? 10); lia. }
      rewrite !Z.pow_succ_r by lia.
      pose proof (Z.div_mod n 10). pose proof (Z.mod_pos_bound n 10).
      lia.
Qed.

(** The digit length is the number of decimal digits in the usual
    sense: [10^(k-1) <= n < 10^k], and 1 for zero. *)
Lemma digit_length_spec (n : Z) :
  0 <= n ->
  (n = 0 /\ digit_length n = 1) \/
  (10 ^ (digit_length n - 1) <= n < 10 ^ digit_length n).
Proof.
  intros Hn. destruct (Z.eq_dec n 0) as [->|Hne]; [left; split; reflexivity|].
  right. unfold digit_length. apply count_digits_bounds.
  pose proof (log2_fuel n Hn). lia.
Qed.

Lemma digit_length_int64 (n : Z) :
  0 <= n <= maxInt64 -> 1 <= digit_length n <= 19.
Proof.
  intros Hn. destruct (FormatUint_spec n) as (_ & _ & _ & H1); [lia|].
  split; [assumption|].
  destruct (digit_length_spec n) as [[_ ->]|[Hlo _]]; [lia | lia |].
  destruct (Z.le_gt_cases (digit_length n) 19) as [|Hgt]; [assumption|].
  exfalso.
  assert (10 ^ 19 <= 10 ^ (digit_length n - 1))
    by (apply Z.pow_le_mono_r; lia).
  unfold maxInt64 in Hn. lia.
Qed.

(** ** File names *)

Lemma Width_digit_length (id : MigrationID) :
  0 <= id -> Width id = digit_length id.
Proof.
  intros H. unfold Width, FormatInt.
  destruct (Z.ltb_spec id 0); [lia|]. now apply FormatUint_spec.
Qed.

Lemma Sprintf_zero_pad (w id : Z) :
  0 <= id -> 0 <= w <= 1000000 ->
  Sprintf_0star_d w id = zero_pad id w.
Proof.
  intros Hid Hw. unfold Sprintf_0star_d, tooLarge, zero_pad.
  destruct (Z.ltb_spec 1000000 w); [lia|].
  destruct (Z.ltb_spec w (-1000000)); [lia|].
  destruct (Z.ltb_spec w 0); [lia|].
  destruct (Z.ltb_spec id 0); [lia|].
  cbn [orb]. rewrite Z.abs_eq by assumption.
  destruct (FormatUint_spec id Hid) as (_ & _ & Hlen & _).
  unfold len in Hlen. simpl. f_equal. f_equal. lia.
Qed.

Lemma all_digits_zeros (n : nat) : all_digits (repeat_char "0" n) = true.
Proof. induction n; simpl; auto. Qed.

Lemma parse_digits_zeros (n : nat) : parse_digits 0 (repeat_char "0" n) = 0.
Proof. induction n; simpl; auto. Qed.

Lemma zero_pad_spec (id w : Z) :
  0 <= id ->
  all_digits (zero_pad id w) = true /\
  parse_digits 0 (zero_pad id w) = id /\
  len (zero_pad id w) = Z.max w (digit_length id) /\
  exists c r, zero_pad id w = String c r /\ is_digit c = true.
Proof.
  intros Hid. unfold zero_pad.
  destruct (FormatUint_spec id Hid) as (Hall & Hval & Hlen & H1).
  rewrite all_digits_app, all_digits_zeros, Hall, parse_digits_app,
    parse_digits_zeros, Hval.
  repeat split.
  - unfold len in *. rewrite length_append, length_repeat_char. lia.
  - destruct (Z.to_nat (w - digit_length id)) as [|n].
    + destruct (FormatUint id) as [|c r] eqn:E; [unfold len in Hlen; simpl in Hlen; lia|].
      exists c, r. split; [reflexivity|]. simpl in Hall. now apply andb_prop in Hall.
    + simpl. eexists _, _. split; reflexivity.
Qed.

Lemma span_digits_app (d t : string) :
  all_digits d = true ->
  (forall c r, t = String c r -> is_digit c = false) ->
  span_digits (d ++ t) = (d, t).
Proof.
  intros Hd Ht. induction d as [|c d IH]; simpl.
  - destruct t as [|c r]; [reflexivity|]. simpl. now rewrite (Ht c r eq_refl).
  - simpl in Hd. apply andb_prop in Hd as [Hc Hd]. now rewrite Hc, IH.
Qed.

Lemma strip_dot_sql_app (slug : string) :
  strip_dot_sql (slug ++ ".sql") = Some slug.
Proof.
  induction slug as [|c r IH]; [reflexivity|].
  cbn [append strip_dot_sql].
  destruct (String.eqb_spec (String c (r ++ ".sql")) ".sql") as [E|_].
  - apply (f_equal String.length) in E. simpl in E.
    rewrite length_append in E. simpl in E. lia.
  - now rewrite IH.
Qed.

Lemma strip_dot_sql_inv (s slug : string) :
  strip_dot_sql s = Some slug -> s = slug ++ ".sql".
Proof.
  revert slug; induction s as [|c r IH]; intros slug; [discriminate|].
  cbn [strip_dot_sql].
  destruct (String.eqb_spec (String c r) ".sql") as [E|_].
  - intros [= <-]. exact E.
  - destruct (strip_dot_sql r) as [t|]; [|discriminate].
    intros [= <-]. simpl. now rewrite (IH t eq_refl).
Qed.

Lemma no_newline_app (a b : string) :
  no_newline (a ++ b) = no_newline a && no_newline b.
Proof.
  induction a; simpl; [reflexivity|]. rewrite IHa. now rewrite andb_assoc.
Qed.

Lemma span_digits_inv (s d t : string) :
  span_digits s = (d, t) ->
  s = d ++ t /\ all_digits d = true /\
  (forall c r, t = String c r -> is_digit c = false).
Proof.
  revert d t; induction s as [|c r IH]; intros d t; simpl.
  - intros [= <- <-]. repeat split. discriminate.
  - destruct (is_digit c) eqn:Hc.
    + destruct (span_digits r) as [d' t'] eqn:E. intros [= <- <-].
      destruct (IH d' t' eq_refl) as (-> & Hd & Ht).
      repeat split; [simpl; now rewrite Hc | assumption].
    + intros [= <- <-]. repeat split. intros c' r' [= -> ->]. exact Hc.
Qed.

(** What a match of the file name pattern means. *)
Lemma reFilename_inv (name raw slug : string) :
  reFilename name = Some (raw, slug) ->
  name = raw ++ "-" ++ slug ++ ".sql" /\
  all_digits raw = true /\ raw <> "" /\ no_newline slug = true.
Proof.
  unfold reFilename. destruct (span_digits name) as [d t] eqn:E.
  apply span_digits_inv in E as (-> & Hd & _).
  destruct d as [|c d]; [discriminate|].
  destruct t as [|h rest]; [discriminate|].
  destruct (Ascii.eqb_spec h "-") as [->|Hne].
  - destruct (no_newline rest) eqn:Hnl; [|discriminate].
    destruct (strip_dot_sql rest) as [s|] eqn:Es; [|discriminate].
    intros [= <- <-]. apply strip_dot_sql_inv in Es as ->.
    rewrite no_newline_app in Hnl. apply andb_prop in Hnl as [Hnl _].
    repeat split; [assumption | discriminate | assumption].
  - intros H. exfalso. revert H.
    destruct h as [[] [] [] [] [] [] [] []]; try discriminate.
    now contradiction Hne.
Qed.

Lemma reFilename_intro (raw slug : string) :
  all_digits raw = true -> raw <> "" -> no_newline slug = true ->
  reFilename (raw ++ "-" ++ slug ++ ".sql") = Some (raw, slug).
Proof.
  intros Hd Hne Hnl. unfold reFilename.
  rewrite span_digits_app; [|assumption | intros c r [= <- _]; reflexivity].
  destruct raw as [|c d]; [contradiction|].
  cbn [append]. rewrite no_newline_app, Hnl, strip_dot_sql_app. reflexivity.
Qed.

Lemma parse_digits_nonneg (s : string) (acc : Z) :
  all_digits s = true -> 0 <= acc -> 0 <= parse_digits acc s.
Proof.
  revert acc; induction s as [|a s IH]; intros acc Ha Hacc; simpl;
    [assumption|].
  simpl in Ha. apply andb_prop in Ha as [Ha Hs]. apply IH; [assumption|].
  unfold is_digit in Ha. unfold digit_val. lia.
Qed.

Lemma ParseInt_digits (raw : string) :
  all_digits raw = true -> raw <> "" ->
  ParseInt raw =
    if maxInt64 <? parse_digits 0 raw
    then Err (NumError "ParseInt" raw true)
    else Ok (parse_digits 0 raw).
Proof.
  intros Hd Hne.
  pose proof (parse_digits_nonneg raw 0 Hd (Z.le_refl 0)) as Hpos.
  destruct raw as [|c r]; [contradiction|].
  assert (is_digit c = true) as Hc
    by (simpl in Hd; now apply andb_prop in Hd).
  destruct (is_digit_not_sign c Hc) as [Hp Hm].
  unfold ParseInt. rewrite Hp, Hm.
  change (String c r =? "")%string with false.
  rewrite Hd. cbn [negb orb].
  destruct (Z.ltb_spec (parse_digits 0 (String c r)) minInt64) as [Hlt|_];
    [unfold minInt64 in Hlt; lia | reflexivity].
Qed.

Lemma mustID_digits (raw : string) :
  all_digits raw = true -> raw <> "" ->
  mustID raw =
    if maxInt64 <? parse_digits 0 raw
    then Panic (Errorf "not a valid integer" (NumError "ParseInt" raw true))
    else Ok (parse_digits 0 raw).
Proof.
  intros Hd Hne.
  pose proof (parse_digits_nonneg raw 0 Hd (Z.le_refl 0)) as Hpos.
  unfold mustID, MigrationID_Set. rewrite ParseInt_digits by assumption.
  destruct (maxInt64 <? parse_digits 0 raw); [reflexivity|].
  unfold NewMigrationID.
  destruct (Z.ltb_spec (parse_digits 0 raw) 0); [lia | reflexivity].
Qed.

Lemma mustID_zero_pad (id w : Z) :
  valid_ID id -> mustID (zero_pad id w) = Ok id.
Proof.
  intros [Hlo Hhi].
  destruct (zero_pad_spec id w Hlo) as (Hall & Hval & _ & c & r & E & _).
  rewrite mustID_digits; [|assumption | rewrite E; discriminate].
  rewrite Hval. destruct (Z.ltb_spec maxInt64 id); [lia | reflexivity].
Qed.

Lemma reFilename_filename (w id : Z) (slug : string) :
  0 <= id -> 0 <= w <= 1000000 -> no_newline slug = true ->
  reFilename (filename w id slug) = Some (zero_pad id w, slug).
Proof.
  intros Hid Hw Hnl. unfold filename. rewrite Sprintf_zero_pad by assumption.
  destruct (zero_pad_spec id w Hid) as (Hall & _ & _ & c & r & E & _).
  apply reFilename_intro; [assumption | rewrite E; discriminate | assumption].
Qed.

(** C7, amended.  For every ID (a non-negative [int64]), every slug
    without a line feed and every width from the digit length of the ID
    up to 1,000,000 (the largest width [fmt] accepts), the name built by
    [filename] matches the file name pattern and parsing it back gives
    the same ID and the same slug. *)
Theorem filename_roundtrip (w : Z) (id : MigrationID) (slug : string) :
  valid_ID id ->
  digit_length id <= w <= 1000000 ->
  no_newline slug = true ->
  reparse (filename w id slug) = Some (Ok id, slug).
Proof.
  intros Hid Hw Hnl. unfold reparse.
  pose proof (digit_length_int64 id Hid).
  rewrite reFilename_filename; [|apply Hid | lia | assumption].
  now rewrite mustID_zero_pad.
Qed.

Lemma filename_roundtrip_witness :
  reparse (filename 5 42 "add_users") = Some (Ok 42, "add_users").
Proof.
  apply filename_roundtrip;
    [unfold valid_ID, maxInt64; lia | vm_compute; intuition discriminate
    | reflexivity].
Defined.

(** C7 as stated fails: a slug with a line feed gives a name that the
    pattern rejects, and so does a width above [fmt]'s limit. *)
Lemma filename_roundtrip_counterexample :
  let slug := String "a" (String LF "b") in
  (valid_ID 5 /\ digit_length 5 <= 1 /\
   reparse (filename 1 5 slug) <> Some (Ok 5, slug)) /\
  (valid_ID 5 /\ digit_length 5 <= 1000001 /\
   reparse (filename 1000001 5 "a") <> Some (Ok 5, "a")).
Proof.
  cbv zeta. unfold valid_ID.
  repeat split; try (vm_compute; discriminate).
Qed.

(** ** Discovery *)

Lemma read_migrations_ok (dir : string) (es : list DirEntry) ms lg :
  read_migrations dir es = (Ok ms, lg) ->
  ms = files_of dir es /\ lg = ignored_log es /\ Forall (entry_ok dir) es.
Proof.
  revert ms lg; induction es as [|e r IH]; intros ms lg; cbn [read_migrations].
  - intros [= <- <-]. repeat split. constructor.
  - cbn [files_of ignored_log]. unfold entry_ok at 1, file_of_entry.
    destruct (reFilename (de_name e)) as [[raw slug]|] eqn:Ere.
    + destruct (de_data e) as [content|] eqn:Eda; [|discriminate].
      destruct (mustID raw) as [i| |] eqn:Eid; try discriminate.
      destruct (read_migrations dir r) as [[ms'| |] lg']; try discriminate.
      intros [= <- <-]. destruct (IH _ _ eq_refl) as (-> & -> & Hok).
      repeat split. constructor; [|assumption].
      right. unfold file_of_entry. rewrite Ere, Eda, Eid. eexists; reflexivity.
    + destruct (read_migrations dir r) as [res lg'].
      intros [= -> <-]. destruct (IH _ _ eq_refl) as (-> & -> & Hok).
      repeat split. constructor; [now left | assumption].
Qed.

Lemma read_migrations_intro (dir : string) (es : list DirEntry) :
  Forall (entry_ok dir) es ->
  read_migrations dir es = (Ok (files_of dir es), ignored_log es).
Proof.
  induction 1 as [|e r He Hr IH]; [reflexivity|].
  cbn [read_migrations files_of ignored_log]. rewrite IH.
  destruct He as [Hno|[f Hf]].
  - unfold file_of_entry. now rewrite Hno.
  - rewrite Hf. unfold file_of_entry in Hf.
    destruct (reFilename (de_name e)) as [[raw slug]|]; [|discriminate].
    destruct (de_data e); [|discriminate].
    destruct (mustID raw); try discriminate. now injection Hf as <-.
Qed.

Lemma find_ID_none (id : MigrationID) (l : list migrationFile) :
  find (fun o => ID o =? id) l = None <-> ~ In id (map ID l).
Proof.
  induction l as [|x l IH]; simpl; [tauto|].
  destruct (Z.eqb_spec (ID x) id) as [E|N].
  - split; [discriminate | intros H; exfalso; apply H; now left].
  - rewrite IH. tauto.
Qed.

Lemma find_ID_some (id : MigrationID) (l : list migrationFile) f :
  find (fun o => ID o =? id) l = Some f -> In f l /\ ID f = id.
Proof.
  intros H. apply find_some in H as [Hin E]. split; [assumption|lia].
Qed.

Lemma check_duplicates_none (seen ms : list migrationFile) :
  check_duplicates seen ms = None <->
  NoDup (map ID ms) /\ forall m, In m ms -> ~ In (ID m) (map ID seen).
Proof.
  revert seen; induction ms as [|m r IH]; intros seen; cbn [check_duplicates].
  - split; [intros _; split; [constructor | intros ? []] | reflexivity].
  - destruct (find (fun o => ID o =? ID m) seen) as [other|] eqn:E.
    + split; [discriminate|]. intros [_ H]. exfalso.
      apply find_ID_some in E as [Hin Hid].
      apply (H m (or_introl eq_refl)). rewrite <- Hid. now apply in_map.
    + apply find_ID_none in E. rewrite IH. cbn [map]. split.
      * intros [Hnd H]. split.
        -- constructor; [|assumption]. intros Hin.
           apply in_map_iff in Hin as (x & Hx & Hxin).
           apply (H x Hxin). left. congruence.
        -- intros x [<-|Hx]; [assumption|].
           intros Hin. apply (H x Hx). now right.
      * intros [Hnd H]. inversion Hnd as [|? ? Hni Hnd']; subst. split; [assumption|].
        intros x Hx [Heq|Hin].
        -- apply Hni. rewrite Heq. now apply in_map.
        -- apply (H x (or_intror Hx) Hin).
Qed.

Lemma check_duplicates_some (seen ms : list migrationFile) e :
  check_duplicates seen ms = Some e -> errors_Is e ErrDuplicateID = true.
Proof.
  revert seen; induction ms as [|m r IH]; intros seen; cbn [check_duplicates];
    [discriminate|].
  destruct (find _ seen); [intros [= <-]; reflexivity | apply IH].
Qed.

(** [available] succeeds exactly when the directory can be listed, every
    entry can be taken in and the IDs are pairwise distinct; the files
    are then those of the entries in the order of their names. *)
Lemma available_ok_iff (dir : string) (fs : FS) ms lg :
  available dir fs = (Ok ms, lg) <->
  fs_listable fs = true /\
  Forall (entry_ok dir) (sort_by_name (fs_entries fs)) /\
  NoDup (map ID (files_of dir (sort_by_name (fs_entries fs)))) /\
  ms = files_of dir (sort_by_name (fs_entries fs)) /\
  lg = ignored_log (sort_by_name (fs_entries fs)).
Proof.
  unfold available, ReadDir. destruct (fs_listable fs); [|split; [discriminate | intros [? _]; discriminate]].
  split.
  - destruct (read_migrations dir _) as [[ms'| |] lg'] eqn:E; try discriminate.
    apply read_migrations_ok in E as (-> & -> & Hok).
    destruct (check_duplicates [] _) eqn:Ed; [discriminate|].
    intros [= <- <-]. apply check_duplicates_none in Ed as [Hnd _].
    repeat split; assumption.
  - intros (_ & Hok & Hnd & -> & ->).
    rewrite (read_migrations_intro _ _ Hok).
    assert (check_duplicates [] (files_of dir (sort_by_name (fs_entries fs)))
            = None) as ->; [|reflexivity].
    apply check_duplicates_none. split; [assumption | intros ? _ []].
Qed.

Lemma file_of_entry_inv (dir : string) (e : DirEntry) f :
  file_of_entry dir e = Some f ->
  reFilename (de_name e) = Some (idRaw f, Slug f) /\
  mustID (idRaw f) = Ok (ID f) /\
  de_data e = Some (Content f) /\
  Name f = de_name e /\ Path f = Join dir (de_name e).
Proof.
  unfold file_of_entry.
  destruct (reFilename (de_name e)) as [[raw slug]|]; [|discriminate].
  destruct (de_data e); [|discriminate].
  destruct (mustID raw) eqn:E; try discriminate.
  intros [= <-]. simpl. repeat split; assumption.
Qed.

Lemma files_of_In (dir : string) (es : list DirEntry) f :
  In f (files_of dir es) <-> exists e, In e es /\ file_of_entry dir e = Some f.
Proof.
  induction es as [|e r IH]; cbn [files_of].
  - split; [intros [] | intros (? & [] & _)].
  - destruct (file_of_entry dir e) as [g|] eqn:E.
    + cbn [In]. rewrite IH. split.
      * intros [<-|(x & Hx & Hf)]; [exists e; split; [now left | assumption]|].
        exists x. split; [now right | assumption].
      * intros (x & [<-|Hx] & Hf); [left; congruence|].
        right. exists x. split; assumption.
    + rewrite IH. split.
      * intros (x & Hx & Hf). exists x. split; [now right | assumption].
      * intros (x & [<-|Hx] & Hf); [congruence|]. exists x. split; assumption.
Qed.

Lemma mustID_ok_valid (raw : string) (id : MigrationID) :
  all_digits raw = true -> raw <> "" -> mustID raw = Ok id ->
  id = parse_digits 0 raw /\ valid_ID id.
Proof.
  intros Hd Hne. rewrite mustID_digits by assumption.
  pose proof (parse_digits_nonneg raw 0 Hd (Z.le_refl 0)).
  destruct (Z.ltb_spec maxInt64 (parse_digits 0 raw)); [discriminate|].
  intros [= <-]. unfold valid_ID. split; [reflexivity | lia].
Qed.

Lemma file_of_entry_valid (dir : string) (e : DirEntry) f :
  file_of_entry dir e = Some f -> valid_ID (ID f).
Proof.
  intros H. apply file_of_entry_inv in H as (Hre & Hid & _).
  apply reFilename_inv in Hre as (_ & Hd & Hne & _).
  now apply (mustID_ok_valid _ _ Hd Hne).
Qed.

Lemma available_valid (dir : string) (fs : FS) ms lg :
  available dir fs = (Ok ms, lg) -> Forall (fun f => valid_ID (ID f)) ms.
Proof.
  intros H. apply available_ok_iff in H as (_ & _ & _ & -> & _).
  apply Forall_forall. intros f Hf.
  apply files_of_In in Hf as (e & _ & He). eapply file_of_entry_valid, He.
Qed.

(** ** The width of the numbering *)

Lemma max_digit_length_nonneg (files : list migrationFile) :
  0 <= max_digit_length files.
Proof.
  unfold max_digit_length. induction files; simpl; lia.
Qed.

Lemma idWidth_fold (files : list migrationFile) (a : Z) :
  Forall (fun f => valid_ID (ID f)) files ->
  0 <= a ->
  fold_left
    (fun width f => let w := Width (ID f) in if width <? w then w else width)
    files a
  = Z.max a (max_digit_length files).
Proof.
  intros H; revert a. induction H as [|f r Hf Hr IH]; intros a Ha.
  - unfold max_digit_length. simpl. lia.
  - cbn [fold_left]. cbv zeta.
    rewrite (Width_digit_length (ID f)) by apply Hf.
    pose proof (digit_length_int64 (ID f) Hf).
    unfold max_digit_length. cbn [map fold_right].
    fold (max_digit_length r).
    destruct (Z.ltb_spec a (digit_length (ID f))); rewrite IH; lia.
Qed.

Lemma idWidth_max (files : list migrationFile) :
  Forall (fun f => valid_ID (ID f)) files ->
  idWidth files = max_digit_length files.
Proof.
  intros H. unfold idWidth. rewrite idWidth_fold by (assumption || lia).
  pose proof (max_digit_length_nonneg files). lia.
Qed.

Lemma max_digit_length_bounds (files : list migrationFile) :
  Forall (fun f => valid_ID (ID f)) files ->
  (forall f, In f files -> digit_length (ID f) <= max_digit_length files) /\
  max_digit_length files <= 19 /\
  (files <> [] -> 1 <= max_digit_length files).
Proof.
  unfold max_digit_length.
  induction 1 as [|f r Hf Hr (IHin & IHle & IHne)]; cbn [map fold_right].
  - repeat split; [intros ? [] | lia | congruence].
  - pose proof (digit_length_int64 (ID f) Hf).
    repeat split; [|lia|lia].
    intros g [<-|Hg]; [lia|]. specialize (IHin g Hg). lia.
Qed.

(** C9, amended.  For every set of available migration files the
    computed width is the largest decimal digit length of their IDs:
    at least 1 when there is a file, and 0 (not 1) when there is none.
    The name derived for a width so computed, an ID and a slug is the ID
    padded with zeros on the left up to that width, then a hyphen, the
    slug and [.sql]. *)
Theorem idWidth_filename_spec (dir : string) (fs : FS)
    (files : list migrationFile) (lg : list LogLine) :
  available dir fs = (Ok files, lg) ->
  idWidth files = max_digit_length files /\
  (files <> [] -> idWidth files = spec_width files) /\
  (files = [] -> idWidth files = 0) /\
  forall id slug,
    valid_ID id ->
    filename (idWidth files) id slug
    = zero_pad id (idWidth files) ++ "-" ++ slug ++ ".sql".
Proof.
  intros H. apply available_valid in H.
  pose proof (idWidth_max files H) as Hw.
  destruct (max_digit_length_bounds files H) as (_ & Hle & Hne).
  pose proof (max_digit_length_nonneg files).
  repeat split.
  - assumption.
  - intros Hf. unfold spec_width. specialize (Hne Hf). lia.
  - intros ->. reflexivity.
  - intros id slug Hid. unfold filename.
    rewrite Sprintf_zero_pad; [reflexivity | apply Hid | lia].
Qed.

Lemma idWidth_filename_spec_witness :
  exists files lg,
    available example_dir example_fs = (Ok files, lg) /\
    idWidth files = 2 /\
    filename (idWidth files) 7 "c" = "07-c.sql".
Proof.
  eexists _, _. split; [vm_compute; reflexivity|].
  match goal with
  | |- idWidth ?fl = _ /\ _ =>
      destruct (idWidth_filename_spec example_dir example_fs fl
                  (ignored_log (sort_by_name (fs_entries example_fs))))
        as (Hw & _ & _ & Hname); [vm_compute; reflexivity|]
  end.
  split; [rewrite Hw; reflexivity|].
  rewrite Hname; [reflexivity | unfold valid_ID, maxInt64; lia].
Defined.

(** C9 as stated fails on the empty set of files: the computed width
    is 0 there, below the minimum of 1. *)
Lemma idWidth_counterexample :
  available "migrations" (mkFS true true [] []) = (Ok [], []) /\
  idWidth [] <> spec_width [].
Proof. split; [reflexivity | vm_compute; discriminate]. Qed.

(** ** The ledger *)

(** C5.  When the ledger query fails with the undefined-table condition
    of the database, [applied] returns an empty record set and no error;
    any other failure of the query is returned as the error. *)
Theorem applied_query_failure {store rows : Type} (drv : Driver store rows)
    (c : Conn store) (e : error) :
  drv_query drv qApplied (committed c) = inl e ->
  (errors_As_PgError e = Some undefined_table ->
   fst (applied drv c) = Ok []) /\
  (errors_As_PgError e <> Some undefined_table ->
   fst (applied drv c) = Err e).
Proof.
  intros Hq. unfold applied, Query. rewrite Hq. cbn [fst].
  destruct (errors_As_PgError e) as [code|].
  - destruct (String.eqb_spec code undefined_table) as [->|Hne]; split;
      try reflexivity; intros H; congruence.
  - split; [discriminate | reflexivity].
Qed.

Lemma applied_query_failure_witness :
  fst (applied toy_driver toy_fresh) = Ok [].
Proof.
  apply (applied_query_failure toy_driver toy_fresh (PgError undefined_table));
    reflexivity.
Defined.

Lemma applied_trace {store rows : Type} (drv : Driver store rows)
    (c : Conn store) :
  snd (applied drv c) = mkConn (committed c) (trace c ++ [EvQuery qApplied]).
Proof.
  unfold applied, Query, record_event.
  destruct (drv_query drv qApplied (committed c)) as [e|rs].
  - destruct (errors_As_PgError e) as [code|]; [|reflexivity].
    destruct (code =? undefined_table)%string; reflexivity.
  - destruct (drv_scan drv rs); reflexivity.
Qed.

(** ** The executor *)

Lemma append_LF_assoc (p x : string) :
  (p ++ String LF "") ++ x = p ++ String LF x.
Proof. now rewrite append_assoc. Qed.

Lemma match_at_line_start_iff (s : string) (bol : bool) :
  match_at_line_start bol s = true <->
  (bol = true /\ exists post, s = noTxDirective ++ post) \/
  (exists p post, s = p ++ String LF (noTxDirective ++ post)).
Proof.
  revert bol; induction s as [|c r IH]; intros bol.
  - cbn [match_at_line_start]. rewrite orb_false_r, andb_true_iff, prefix_iff.
    split; [intros [-> H]; left; split; [reflexivity | exact H]|].
    intros [[-> H]|(p & post & H)]; [split; [reflexivity | exact H]|].
    destruct p; discriminate.
  - cbn [match_at_line_start]. rewrite orb_true_iff, andb_true_iff, prefix_iff, IH.
    split.
    + intros [[-> H]|[[Hc (post & ->)]|(p & post & ->)]].
      * left. split; [reflexivity | exact H].
      * right. exists "", post. apply Ascii.eqb_eq in Hc as ->. reflexivity.
      * right. exists (String c p), post. reflexivity.
    + intros [[-> H]|(p & post & H)]; [left; split; [reflexivity | exact H]|].
      right. destruct p as [|d p]; cbn [append] in H; injection H as -> ->.
      * left. split; [apply Ascii.eqb_refl | exists post; reflexivity].
      * right. exists p, post. reflexivity.
Qed.

Lemma skipTx_iff (content : string) :
  skipTx content = true <-> directive_at_line_start content.
Proof.
  unfold skipTx, directive_at_line_start. rewrite match_at_line_start_iff.
  split.
  - intros [[_ (post & ->)]|(p & post & ->)].
    + exists "", post. split; [reflexivity | now left].
    + exists (p ++ String LF ""), post.
      split; [now rewrite append_LF_assoc | right; exists p; reflexivity].
  - intros (pre & post & -> & [->|(p & ->)]).
    + left. split; [reflexivity | exists post; reflexivity].
    + right. exists p, post. now rewrite append_LF_assoc.
Qed.

Section Executor.

Context {store rows : Type} (drv : Driver store rows).

(** The transactional branch of [apply], call by call. *)
Lemma apply_tx_eq (f : migrationFile) (c : Conn store) :
  skipTx (Content f) = false ->
  apply drv f c =
    match drv_begin drv (committed c) with
    | Some e => (Some e, mkConn (committed c) (trace c ++ [EvBegin]))
    | None =>
        let cl := drv_exec drv claimQuery [SqlID (ID f); SqlText (Slug f)]
                    (committed c) in
        match fst cl with
        | Some e =>
            (Some e, mkConn (committed c) (trace c ++ [EvBegin; evClaim f]))
        | None =>
            let bd := drv_exec drv (Content f) [] (snd cl) in
            match fst bd with
            | Some e =>
                (Some e,
                 mkConn (committed c)
                   (trace c ++ [EvBegin; evClaim f; evBody f]))
            | None =>
                match drv_commit drv (snd bd) with
                | Some e =>
                    (Some e,
                     mkConn (committed c)
                       (trace c ++ [EvBegin; evClaim f; evBody f; EvCommit]))
                | None =>
                    (None,
                     mkConn (snd bd)
                       (trace c ++ [EvBegin; evClaim f; evBody f; EvCommit]))
                end
            end
        end
    end.
Proof.
  intros Htx. unfold apply. rewrite Htx.
  unfold BeginTx, claim, run, ExecContext, Tx_Queryable, Commit, record_event,
    evClaim, evBody.
  destruct (drv_begin drv (committed c)); cbn [committed trace tx_state];
    [reflexivity|].
  destruct (drv_exec drv claimQuery _ (committed c)) as [[e1|] s1];
    cbn [fst snd committed trace tx_state]; rewrite <- ?app_assoc;
    [reflexivity|].
  destruct (drv_exec drv (Content f) [] s1) as [[e2|] s2];
    cbn [fst snd committed trace tx_state]; rewrite <- ?app_assoc;
    [reflexivity|].
  destruct (drv_commit drv s2); cbn [committed trace];
    rewrite <- ?app_assoc; reflexivity.
Qed.

Lemma apply_notx_eq (f : migrationFile) (c : Conn store) :
  skipTx (Content f) = true ->
  apply drv f c =
    (fst (drv_exec drv (Content f) [] (committed c)),
     mkConn (snd (drv_exec drv (Content f) [] (committed c)))
       (trace c ++ [EvExec false (Content f) []])).
Proof.
  intros Htx. unfold apply, run, ExecContext, DB_Queryable. rewrite Htx.
  destruct (drv_exec drv (Content f) [] (committed c)); reflexivity.
Qed.

End Executor.

Section Stopping.

Context {store rows : Type} (drv : Driver store rows).

Lemma migrate_loop_stops (upto : option MigrationID)
    (pre post : list migrationFile) (f : migrationFile)
    (c0 c c' : Conn store) (lg0 : list LogLine) (e : error) :
  migrate_loop drv upto pre c0 = (None, c, lg0) ->
  skipped_by upto f = None ->
  apply drv f c = (Some e, c') ->
  migrate_loop drv upto (pre ++ f :: post) c0
  = (Some e, c', lg0 ++ [logApplying f])%list.
Proof.
  intros Hpre Hf Hap. revert c0 lg0 Hpre.
  induction pre as [|g pre IH]; intros c0 lg0; cbn [migrate_loop app].
  - intros [= <- <-]. now rewrite Hf, Hap.
  - destruct (skipped_by upto g) as [u|].
    + destruct (migrate_loop drv upto pre c0) as [[r c1] lg1] eqn:E.
      intros [= -> -> <-]. now rewrite (IH _ _ E).
    + destruct (apply drv g c0) as [[e0|] c1]; [discriminate|].
      destruct (migrate_loop drv upto pre c1) as [[r c2] lg1] eqn:E.
      intros [= -> -> <-]. now rewrite (IH _ _ E).
Qed.

Lemma Migrate_stops (dir : string) (upto : option MigrationID) (fs : FS)
    (c0 c1 c c' : Conn store) records files lg pre post f lg0 e :
  applied drv c0 = (Ok records, c1) ->
  available dir fs = (Ok files, lg) ->
  diff records files = (pre ++ f :: post)%list ->
  migrate_loop drv upto pre c1 = (None, c, lg0) ->
  skipped_by upto f = None ->
  apply drv f c = (Some e, c') ->
  Migrate drv dir upto fs c0
  = (Err e, c', lg ++ lg0 ++ [logApplying f])%list.
Proof.
  intros Ha Hv Hd Hpre Hf Hap. unfold Migrate. rewrite Ha, Hv, Hd.
  now rewrite (migrate_loop_stops _ _ _ _ _ _ _ _ _ Hpre Hf Hap).
Qed.

Lemma applied_committed (c1 c2 : Conn store) :
  committed c1 = committed c2 ->
  fst (applied drv c1) = fst (applied drv c2).
Proof.
  intros E. unfold applied, Query. rewrite E.
  destruct (drv_query drv qApplied (committed c2)) as [e|rs].
  - destruct (errors_As_PgError e) as [code|]; [|reflexivity].
    destruct (code =? undefined_table)%string; reflexivity.
  - destruct (drv_scan drv rs); reflexivity.
Qed.

(** C1.  A migration file without the no-transaction directive is
    applied by opening a transaction, then the ledger claim with
    (id, slug), then the content of the file, and the commit comes only
    when both have succeeded.  If the claim or the content fails, the
    transaction is not committed, so the committed state is what it was
    and the ledger read from it has no row for that ID if it had none;
    [apply] returns that error and [Migrate] returns it as it is, with
    nothing done for the pending migrations that come later. *)
Theorem apply_in_transaction (f : migrationFile) (c : Conn store) :
  skipTx (Content f) = false ->
  drv_begin drv (committed c) = None ->
  let cl :=
    drv_exec drv claimQuery [SqlID (ID f); SqlText (Slug f)] (committed c) in
  let bd := drv_exec drv (Content f) [] (snd cl) in
  let r := fst (apply drv f c) in
  let c' := snd (apply drv f c) in
  (exists evs, trace c' = (trace c ++ EvBegin :: evClaim f :: evs)%list /\
     (In EvCommit evs <-> fst cl = None /\ fst bd = None) /\
     (fst cl = None -> exists evs', evs = evBody f :: evs')) /\
  (fst cl = None -> fst bd = None ->
     trace c' = (trace c ++ [EvBegin; evClaim f; evBody f; EvCommit])%list /\
     r = drv_commit drv (snd bd) /\
     (r = None -> committed c' = snd bd)) /\
  (forall e,
     fst cl = Some e \/ (fst cl = None /\ fst bd = Some e) ->
     r = Some e /\
     committed c' = committed c /\
     fst (applied drv c') = fst (applied drv c) /\
     (forall recs,
        fst (applied drv c) = Ok recs ->
        ~ In (ID f) (map rec_ID recs) ->
        exists recs',
          fst (applied drv c') = Ok recs' /\ ~ In (ID f) (map rec_ID recs')) /\
     (forall dir upto fs c0 c1 records files lg pre post lg0,
        applied drv c0 = (Ok records, c1) ->
        available dir fs = (Ok files, lg) ->
        diff records files = (pre ++ f :: post)%list ->
        migrate_loop drv upto pre c1 = (None, c, lg0) ->
        skipped_by upto f = None ->
        Migrate drv dir upto fs c0
        = (Err e, c', lg ++ lg0 ++ [logApplying f])%list)).
Proof.
  intros Htx Hbegin cl bd r c'.
  pose proof (apply_tx_eq drv f c Htx) as Heq. rewrite Hbegin in Heq.
  cbv zeta in Heq. fold cl in Heq. fold bd in Heq.
  assert (forall e, r = Some e ->
            forall dir upto fs c0 c1 records files lg pre post lg0,
              applied drv c0 = (Ok records, c1) ->
              available dir fs = (Ok files, lg) ->
              diff records files = (pre ++ f :: post)%list ->
              migrate_loop drv upto pre c1 = (None, c, lg0) ->
              skipped_by upto f = None ->
              Migrate drv dir upto fs c0
              = (Err e, c', lg ++ lg0 ++ [logApplying f])%list) as Hstop.
  { intros e Hr; intros. eapply Migrate_stops; eauto.
    subst r c'. rewrite <- Hr. apply surjective_pairing. }
  subst r c'. revert Hstop. rewrite Heq. clear Heq.
  destruct (fst cl) as [e1|].
  - cbn [fst snd trace committed]. intros Hstop. split; [|split].
    + exists []. split; [reflexivity|]. split.
      * split; [intros [] | intros [H _]; discriminate H].
      * intros H; discriminate H.
    + intros H; discriminate H.
    + intros e [H|[H _]]; [injection H as <- | discriminate H].
      split; [reflexivity|]. split; [reflexivity|].
      split; [now apply applied_committed|].
      split; [|now apply Hstop].
      intros recs H1 H2. exists recs. split; [|assumption].
      rewrite <- H1. now apply applied_committed.
  - destruct (fst bd) as [e2|].
    + cbn [fst snd trace committed]. intros Hstop. split; [|split].
      * exists [evBody f]. split; [reflexivity|]. split.
        -- split; [intros [H|[]]; discriminate H | intros [_ H]; discriminate H].
        -- intros _. now exists [].
      * intros _ H; discriminate H.
      * intros e [H|[_ H]]; [discriminate H | injection H as <-].
        split; [reflexivity|]. split; [reflexivity|].
        split; [now apply applied_committed|].
        split; [|now apply Hstop].
        intros recs H1 H2. exists recs. split; [|assumption].
        rewrite <- H1. now apply applied_committed.
    + intros _. split; [|split].
      * exists [evBody f; EvCommit].
        destruct (drv_commit drv (snd bd)); cbn [snd trace];
          (split; [reflexivity|]); (split; [|intros _; now exists [EvCommit]]);
          (split; [intros _; split; reflexivity | intros _; right; now left]).
      * intros _ _.
        destruct (drv_commit drv (snd bd)); cbn [fst snd trace committed];
          (split; [reflexivity|]); (split; [reflexivity|]);
          [intros H; discriminate H | reflexivity].
      * intros e [H|[_ H]]; discriminate H.
Qed.

End Stopping.

Lemma apply_in_transaction_witness :
  fst (apply toy_driver file_bad toy_ready) = Some (PgError "42601") /\
  committed (snd (apply toy_driver file_bad toy_ready)) = committed toy_ready /\
  fst (apply toy_driver file_ok toy_ready) = None.
Proof.
  destruct (apply_in_transaction toy_driver file_bad toy_ready eq_refl eq_refl)
    as (_ & _ & Hfail).
  destruct (Hfail (PgError "42601")) as (Hr & Hc & _);
    [right; split; reflexivity|].
  destruct (apply_in_transaction toy_driver file_ok toy_ready eq_refl eq_refl)
    as (_ & Hok & _).
  destruct (Hok eq_refl eq_refl) as (_ & Hr' & _).
  repeat split; assumption.
Defined.

Example Migrate_stops_example :
  Migrate toy_driver example_dir None example_run_fs toy_ready
  = (Err (PgError "42601"),
     mkConn (mkToy true [mkRecord 0 "init" 0; mkRecord 5 "ok" 0]
               ["create table t ();"])
       [EvQuery qApplied;
        EvBegin; evClaim file_ok; evBody file_ok; EvCommit;
        EvBegin; evClaim file_bad; evBody file_bad],
     [logApplying file_ok; logApplying file_bad]).
Proof. vm_compute. reflexivity. Qed.

(** C4, amended.  Transaction wrapping and the automatic claim are
    disabled exactly when the content has the literal
    [--drift:no-transaction] right at the start of a line (the start of
    the content or just after a line feed): no white space may come
    before it, and anything may follow it on the line.  In that case the
    raw content is executed directly on the connection, with no
    transaction and no claim; otherwise the first call is the opening of
    a transaction. *)
Theorem directive_disables_transaction {store rows : Type}
    (drv : Driver store rows) (f : migrationFile) (c : Conn store) :
  (skipTx (Content f) = true <-> directive_at_line_start (Content f)) /\
  (skipTx (Content f) = true ->
   apply drv f c =
     (fst (drv_exec drv (Content f) [] (committed c)),
      mkConn (snd (drv_exec drv (Content f) [] (committed c)))
        (trace c ++ [EvExec false (Content f) []]))) /\
  (skipTx (Content f) = false ->
   exists evs, trace (snd (apply drv f c)) = (trace c ++ EvBegin :: evs)%list).
Proof.
  split; [apply skipTx_iff|]. split; [apply apply_notx_eq|].
  intros Htx. rewrite (apply_tx_eq drv f c Htx).
  destruct (drv_begin drv (committed c)); [now exists []|].
  cbv zeta. destruct (fst (drv_exec drv claimQuery _ _));
    [now eexists|].
  destruct (fst (drv_exec drv (Content f) [] _)); [now eexists|].
  destruct (drv_commit drv _); now eexists.
Qed.

Lemma directive_disables_transaction_witness :
  trace (snd (apply toy_driver
                (mkFile "migrations/0-init.sql" "0-init.sql"
                   "--drift:no-transaction" 0 "init" "0") toy_fresh))
  = [EvExec false "--drift:no-transaction" []].
Proof.
  destruct (directive_disables_transaction toy_driver
              (mkFile "migrations/0-init.sql" "0-init.sql"
                 "--drift:no-transaction" 0 "init" "0") toy_fresh)
    as (_ & H & _).
  rewrite H; reflexivity.
Defined.

(** C4 as stated fails in both directions.  A directive preceded by
    white space is not recognised: the file runs inside a transaction,
    after a claim.  A line that merely begins with the directive is
    recognised although it is not exactly the directive. *)
Lemma directive_counterexample :
  let indented := example_file 5 "x" "  --drift:no-transaction" in
  let longer := example_file 5 "x" "--drift:no-transaction-please" in
  (spec_no_transaction (Content indented) = true /\
   skipTx (Content indented) = false /\
   trace (snd (apply toy_driver indented toy_ready))
   = [EvBegin; evClaim indented; evBody indented; EvCommit]) /\
  (spec_no_transaction (Content longer) = false /\
   skipTx (Content longer) = true /\
   trace (snd (apply toy_driver longer toy_ready))
   = [EvExec false (Content longer) []]).
Proof. vm_compute. repeat split. Qed.

(** ** The reconciler *)

Lemma insert_by_ID_perm (f : migrationFile) (l : list migrationFile) :
  Permutation (insert_by_ID f l) (f :: l).
Proof.
  induction l as [|x r IH]; cbn [insert_by_ID]; [reflexivity|].
  destruct (ID x <? ID f); [|reflexivity].
  rewrite IH. apply perm_swap.
Qed.

Lemma sort_by_ID_perm (l : list migrationFile) : Permutation (sort_by_ID l) l.
Proof.
  induction l as [|x r IH]; [reflexivity|].
  cbn [sort_by_ID fold_right]. fold (sort_by_ID r).
  rewrite insert_by_ID_perm. now constructor.
Qed.

Lemma insert_by_ID_sorted (f : migrationFile) (l : list migrationFile) :
  StronglySorted ID_le l -> StronglySorted ID_le (insert_by_ID f l).
Proof.
  induction 1 as [|x r Hr IH Hx]; cbn [insert_by_ID].
  - repeat constructor.
  - destruct (Z.ltb_spec (ID x) (ID f)) as [Hlt|Hge].
    + constructor; [assumption|].
      eapply Permutation_Forall; [symmetry; apply insert_by_ID_perm|].
      constructor; [unfold ID_le; lia | assumption].
    + constructor; [now constructor|].
      constructor; [exact Hge|].
      eapply Forall_impl; [|exact Hx]. unfold ID_le. intros; lia.
Qed.

Lemma sort_by_ID_sorted (l : list migrationFile) :
  StronglySorted ID_le (sort_by_ID l).
Proof.
  induction l as [|x r IH]; [constructor|].
  cbn [sort_by_ID fold_right]. now apply insert_by_ID_sorted.
Qed.

Lemma StronglySorted_filter {A} (R : A -> A -> Prop) (p : A -> bool) l :
  StronglySorted R l -> StronglySorted R (filter p l).
Proof.
  induction 1 as [|x r Hr IH Hx]; cbn [filter]; [constructor|].
  destruct (p x); [|assumption].
  constructor; [assumption|].
  apply Forall_forall. intros y Hy. apply filter_In in Hy as [Hy _].
  revert y Hy. now apply Forall_forall.
Qed.

Lemma NoDup_map_filter {A B} (g : A -> B) (p : A -> bool) l :
  NoDup (map g l) -> NoDup (map g (filter p l)).
Proof.
  induction l as [|x r IH]; cbn [map filter]; [trivial|].
  intros H. inversion H as [|? ? Hni Hnd]; subst.
  destruct (p x); [|now apply IH].
  cbn [map]. constructor; [|now apply IH].
  intros Hin. apply Hni. apply in_map_iff in Hin as (y & Hy & Hyin).
  apply filter_In in Hyin as [Hyin _]. apply in_map_iff. now exists y.
Qed.

Lemma sorted_strict (l : list migrationFile) :
  StronglySorted ID_le l -> NoDup (map ID l) -> StronglySorted ID_lt l.
Proof.
  induction 1 as [|x r Hr IH Hx]; cbn [map]; intros Hnd; [constructor|].
  inversion Hnd as [|? ? Hni Hnd']; subst.
  constructor; [now apply IH|].
  apply Forall_forall. intros y Hy.
  assert (ID x <= ID y) by (revert y Hy; now apply Forall_forall).
  assert (ID x <> ID y) by (intros E; apply Hni; rewrite E; now apply in_map).
  unfold ID_lt. lia.
Qed.

Lemma existsb_eqb_In (id : Z) (l : list Z) :
  existsb (Z.eqb id) l = true <-> In id l.
Proof.
  rewrite existsb_exists. split.
  - intros (x & Hx & E). apply Z.eqb_eq in E. now subst.
  - intros H. exists id. split; [assumption | apply Z.eqb_refl].
Qed.

Lemma diff_In (records : list migrationRecord) (files : list migrationFile) f :
  In f (diff records files) <->
  In f files /\ ~ In (ID f) (map rec_ID records).
Proof.
  unfold diff. split.
  - intros H. apply (Permutation_in _ (sort_by_ID_perm _)) in H.
    apply filter_In in H as [Hin Hb]. split; [assumption|].
    rewrite <- existsb_eqb_In. now destruct (existsb _ _).
  - intros [Hin Hni].
    apply (Permutation_in _ (Permutation_sym (sort_by_ID_perm _))).
    apply filter_In. split; [assumption|].
    rewrite <- existsb_eqb_In in Hni. now destruct (existsb _ _).
Qed.

Lemma diff_NoDup (records : list migrationRecord) (files : list migrationFile) :
  NoDup (map ID files) -> NoDup (map ID (diff records files)).
Proof.
  intros H. unfold diff.
  eapply Permutation_NoDup;
    [apply Permutation_map, Permutation_sym, sort_by_ID_perm|].
  now apply NoDup_map_filter.
Qed.

Lemma kept_iff (upto : option MigrationID) (f : migrationFile) :
  kept upto f = true <-> forall u, upto = Some u -> ID f <= u.
Proof.
  unfold kept, skipped_by. destruct upto as [u|].
  - destruct (Z.ltb_spec u (ID f)) as [Hlt|Hge]; split;
      try discriminate; try reflexivity.
    + intros Hu. specialize (Hu u eq_refl). lia.
    + intros _ v [= <-]. assumption.
  - split; [intros _ u; discriminate | reflexivity].
Qed.

Lemma applying_log_app (a b : list LogLine) :
  applying_log (a ++ b) = (applying_log a ++ applying_log b)%list.
Proof.
  induction a as [|l a IH]; [reflexivity|]. cbn [app applying_log].
  destruct l as [fmt [|[n|u] [|? ?]]| |]; try assumption.
  destruct (fmt =? _)%string; [cbn [app]; now f_equal | assumption].
Qed.

Lemma skipping_log_app (a b : list LogLine) :
  skipping_log (a ++ b) = (skipping_log a ++ skipping_log b)%list.
Proof.
  induction a as [|l a IH]; [reflexivity|]. cbn [app skipping_log].
  destruct l as [|fmt [|[n|u] [|[n'|u'] [|? ?]]]|]; try assumption.
  destruct (fmt =? _)%string; [cbn [app]; now f_equal | assumption].
Qed.

Section Reconciler.

Context {store rows : Type} (drv : Driver store rows).

(** The loop of [Migrate] applies the kept files, in order, and stops
    at the first error; the others are only logged. *)
Lemma migrate_loop_kept (upto : option MigrationID)
    (needed : list migrationFile) (c : Conn store) :
  exists lg,
    migrate_loop drv upto needed c
    = (fst (apply_all drv (filter (kept upto) needed) c),
       snd (apply_all drv (filter (kept upto) needed) c), lg) /\
    (fst (apply_all drv (filter (kept upto) needed) c) = None ->
     applying_log lg = map Name (filter (kept upto) needed) /\
     skipping_log lg
     = map Name (filter (fun f => negb (kept upto f)) needed)).
Proof.
  revert c; induction needed as [|f r IH]; intros c;
    cbn [migrate_loop filter].
  - exists []. split; [reflexivity|]. intros _. split; reflexivity.
  - destruct (skipped_by upto f) as [u|] eqn:Es.
    + assert (kept upto f = false) as -> by (unfold kept; now rewrite Es).
      cbn [negb]. destruct (IH c) as (lg & -> & Hlog).
      eexists. split; [reflexivity|]. intros Hnone.
      destruct (Hlog Hnone) as (Ha & Hs).
      split; [exact Ha|]. cbn [map]. rewrite <- Hs. reflexivity.
    + assert (kept upto f = true) as -> by (unfold kept; now rewrite Es).
      cbn [negb apply_all]. destruct (apply drv f c) as [[e|] c1].
      * eexists. split; [reflexivity|]. discriminate.
      * destruct (IH c1) as (lg & -> & Hlog).
        eexists. split; [reflexivity|]. intros Hnone.
        destruct (Hlog Hnone) as (Ha & Hs).
        split; [|exact Hs]. cbn [map]. rewrite <- Ha. reflexivity.
Qed.

End Reconciler.

Lemma filter_all {A} (p : A -> bool) (l : list A) :
  (forall x, p x = true) -> filter p l = l.
Proof.
  intros H. induction l as [|x r IH]; cbn [filter]; [reflexivity|].
  now rewrite H, IH.
Qed.

(** C2.  For every set of ledger records, every list of available files
    with distinct IDs and every optional ceiling, the pending set that
    [Migrate] computes (with [diff] and the test on [upto]) consists
    exactly of the available files whose ID is not in the ledger and,
    when there is a ceiling, is at most the ceiling; it is in ascending
    order of ID.  [Migrate] applies these files in this order; the files
    left out for the ceiling are logged and are no error, since the only
    errors of the loop are those of an application.  With an empty
    ledger and no ceiling every available file is pending. *)
Theorem pending_set {store rows : Type} (drv : Driver store rows)
    (records : list migrationRecord) (files : list migrationFile)
    (upto : option MigrationID) :
  NoDup (map ID files) ->
  let pend := pending records files upto in
  StronglySorted ID_lt pend /\
  (forall f, In f pend <->
             In f files /\ ~ In (ID f) (map rec_ID records) /\
             (forall u, upto = Some u -> ID f <= u)) /\
  NoDup pend /\
  (records = [] -> upto = None -> Permutation pend files) /\
  (forall dir fs c c1 lg0,
     applied drv c = (Ok records, c1) ->
     available dir fs = (Ok files, lg0) ->
     exists lg,
       Migrate drv dir upto fs c
       = (result_of (fst (apply_all drv pend c1)),
          snd (apply_all drv pend c1), (lg0 ++ lg)%list) /\
       (fst (apply_all drv pend c1) = None ->
        applying_log lg = map Name pend /\
        skipping_log lg = map Name (beyond records files upto))).
Proof.
  intros Hnd pend.
  assert (NoDup (map ID pend)) as Hndp
    by (apply NoDup_map_filter, diff_NoDup, Hnd).
  split; [|split; [|split; [|split]]].
  - apply sorted_strict; [|assumption].
    apply StronglySorted_filter. unfold diff. apply sort_by_ID_sorted.
  - intros f. unfold pend, pending. rewrite filter_In, diff_In, kept_iff. tauto.
  - eapply NoDup_map_inv, Hndp.
  - intros -> ->. unfold pend, pending, diff. cbn [map existsb negb].
    rewrite !filter_all by reflexivity. apply sort_by_ID_perm.
  - intros dir fs c c1 lg0 Ha Hv. unfold Migrate. rewrite Ha, Hv.
    destruct (migrate_loop_kept drv upto (diff records files) c1)
      as (lg & -> & Hlog).
    fold (pending records files upto) in *. fold pend in Hlog |- *.
    fold (beyond records files upto) in Hlog.
    destruct (fst (apply_all drv pend c1)) as [e|].
    + exists lg. split; [reflexivity | discriminate].
    + eexists. split; [reflexivity|]. intros _.
      destruct (Hlog eq_refl) as [Ha' Hs'].
      rewrite applying_log_app, skipping_log_app, Ha', Hs'.
      cbn [applying_log skipping_log]. rewrite !app_nil_r.
      split; reflexivity.
Qed.

Lemma pending_set_witness :
  In file_add_users (pending [mkRecord 0 "init" 0]
                       [file_init; file_add_users] None) /\
  ~ In file_init (pending [mkRecord 0 "init" 0]
                    [file_init; file_add_users] None).
Proof.
  assert (NoDup (map ID [file_init; file_add_users])) as Hnd.
  { repeat constructor; simpl; intuition discriminate. }
  destruct (pending_set toy_driver [mkRecord 0 "init" 0]
              [file_init; file_add_users] None Hnd) as (_ & Hin & _).
  split.
  - apply Hin. split; [right; now left|].
    split; [simpl; intuition discriminate | discriminate].
  - intros H. apply Hin in H as (_ & H & _). apply H. now left.
Defined.

Example pending_scenario :
  pending [mkRecord 0 "init" 0] [file_init; file_add_users] None
  = [file_add_users] /\
  pending [] [file_bad; file_init; file_later; file_ok] (Some 7)
  = [file_init; file_ok; file_bad].
Proof. split; reflexivity. Qed.

(** ** Duplicate IDs *)

Lemma insert_by_name_perm (e : DirEntry) (l : list DirEntry) :
  Permutation (insert_by_name e l) (e :: l).
Proof.
  induction l as [|x r IH]; cbn [insert_by_name]; [reflexivity|].
  destruct (String.leb (de_name e) (de_name x)); [reflexivity|].
  rewrite IH. apply perm_swap.
Qed.

Lemma sort_by_name_perm (l : list DirEntry) : Permutation (sort_by_name l) l.
Proof.
  induction l as [|x r IH]; [reflexivity|].
  cbn [sort_by_name fold_right]. fold (sort_by_name r).
  rewrite insert_by_name_perm. now constructor.
Qed.

Lemma files_of_perm (dir : string) (a b : list DirEntry) :
  Permutation a b -> Permutation (files_of dir a) (files_of dir b).
Proof.
  induction 1 as [|x a b H IH|x y a|a b c H1 IH1 H2 IH2]; cbn [files_of].
  - reflexivity.
  - destruct (file_of_entry dir x); [now constructor | assumption].
  - destruct (file_of_entry dir x), (file_of_entry dir y);
      try reflexivity. apply perm_swap.
  - now transitivity (files_of dir b).
Qed.

Lemma files_of_app (dir : string) (a b : list DirEntry) :
  files_of dir (a ++ b) = (files_of dir a ++ files_of dir b)%list.
Proof.
  induction a as [|x a IH]; cbn [files_of app]; [reflexivity|].
  destruct (file_of_entry dir x); cbn [app]; now rewrite IH.
Qed.

Lemma sorted_files_of_entries (dir : string) (es : list DirEntry) f :
  In f (files_of dir (sort_by_name es)) <->
  exists e, In e es /\ file_of_entry dir e = Some f.
Proof.
  rewrite files_of_In. split; intros (e & He & Hf); exists e; (split; [|assumption]).
  - eapply Permutation_in; [apply sort_by_name_perm | exact He].
  - eapply Permutation_in; [symmetry; apply sort_by_name_perm | exact He].
Qed.

Lemma entry_ok_file (dir : string) (e : DirEntry) raw slug :
  entry_ok dir e -> reFilename (de_name e) = Some (raw, slug) ->
  exists f, file_of_entry dir e = Some f /\ ID f = parse_digits 0 raw.
Proof.
  intros [Hno|[f Hf]] Hre; [congruence|].
  exists f. split; [assumption|].
  pose proof (file_of_entry_inv _ _ _ Hf) as (Hre' & Hid & _).
  rewrite Hre in Hre'. injection Hre' as E1 E2.
  apply reFilename_inv in Hre as (_ & Hd & Hne & _).
  rewrite <- E1 in Hid.
  now destruct (mustID_ok_valid _ _ Hd Hne Hid).
Qed.

Section Duplicates.

Variables (dir : string) (fs : FS).
Variables (l1 l2 l3 : list DirEntry) (e1 e2 : DirEntry).
Variables (raw1 slug1 raw2 slug2 : string).

Hypothesis entries : fs_entries fs = (l1 ++ e1 :: l2 ++ e2 :: l3)%list.
Hypothesis match1 : reFilename (de_name e1) = Some (raw1, slug1).
Hypothesis match2 : reFilename (de_name e2) = Some (raw2, slug2).
Hypothesis same_ID : parse_digits 0 raw1 = parse_digits 0 raw2.

Lemma duplicates_not_NoDup :
  Forall (entry_ok dir) (fs_entries fs) ->
  ~ NoDup (map ID (files_of dir (fs_entries fs))).
Proof.
  intros Hok Hnd. rewrite entries in Hok, Hnd.
  apply Forall_app in Hok as [_ Hok].
  inversion Hok as [|? ? Hok1 Hok']; subst.
  apply Forall_app in Hok' as [_ Hok'].
  inversion Hok' as [|? ? Hok2 _]; subst.
  destruct (entry_ok_file _ _ _ _ Hok1 match1) as (f1 & Hf1 & Hid1).
  destruct (entry_ok_file _ _ _ _ Hok2 match2) as (f2 & Hf2 & Hid2).
  rewrite files_of_app in Hnd. cbn [files_of] in Hnd.
  rewrite Hf1, files_of_app in Hnd. cbn [files_of] in Hnd.
  rewrite Hf2 in Hnd. rewrite map_app in Hnd. cbn [map] in Hnd.
  apply NoDup_remove_2 in Hnd. apply Hnd.
  apply in_or_app. right. rewrite map_app. apply in_or_app. right.
  left. cbn [map]. congruence.
Qed.

Lemma duplicates_never_ok : is_ok (fst (available dir fs)) = false.
Proof.
  destruct (available dir fs) as [[ms| |] lg] eqn:E; try reflexivity.
  exfalso. apply available_ok_iff in E as (_ & Hok & Hnd & _).
  apply duplicates_not_NoDup.
  - eapply Permutation_Forall; [apply sort_by_name_perm | exact Hok].
  - eapply Permutation_NoDup; [|exact Hnd].
    apply Permutation_map, files_of_perm, sort_by_name_perm.
Qed.

Lemma duplicates_error :
  fs_listable fs = true ->
  Forall (entry_ok dir) (fs_entries fs) ->
  exists e, fst (available dir fs) = Err e /\ errors_Is e ErrDuplicateID = true.
Proof.
  intros Hl Hok. pose proof duplicates_never_ok as Hnever.
  unfold available, ReadDir in *. rewrite Hl in *.
  rewrite read_migrations_intro in *
    by (eapply Permutation_Forall;
        [symmetry; apply sort_by_name_perm | exact Hok]).
  destruct (check_duplicates [] _) as [e|] eqn:Ed; [|discriminate Hnever].
  exists e. split; [reflexivity|]. eapply check_duplicates_some, Ed.
Qed.

(** C3, amended.  In a directory where two files that match the file
    name pattern have the same numeric ID, discovery never succeeds, and
    since [Migrate] discovers before it applies, no migration is
    executed: the only call to the database is the ledger query.  The
    failure is the DuplicateID error when the directory can be listed,
    every matching file can be read and every ID fits in 64 bits;
    otherwise the error of the listing or of the reading, or the panic
    for the ID, comes first. *)
Theorem duplicate_IDs_stop :
  is_ok (fst (available dir fs)) = false /\
  (fs_listable fs = true ->
   Forall (entry_ok dir) (fs_entries fs) ->
   exists e,
     fst (available dir fs) = Err e /\ errors_Is e ErrDuplicateID = true /\
     forall (store rows : Type) (drv : Driver store rows) upto c,
       is_ok (fst (applied drv c)) = true ->
       fst (fst (Migrate drv dir upto fs c))
       = Err (Errorf "could not get available migrations" e)) /\
  (forall (store rows : Type) (drv : Driver store rows) upto c,
     is_ok (fst (fst (Migrate drv dir upto fs c))) = false /\
     snd (fst (Migrate drv dir upto fs c))
     = mkConn (committed c) (trace c ++ [EvQuery qApplied])).
Proof.
  split; [apply duplicates_never_ok|]. split.
  - intros Hl Hok. destruct (duplicates_error Hl Hok) as (e & He & Hdup).
    exists e. split; [assumption|]. split; [assumption|].
    intros store rows drv upto c Ha. unfold Migrate.
    destruct (applied drv c) as [[records| |] c1]; try discriminate Ha.
    destruct (available dir fs) as [[ms| |] lg]; try discriminate He.
    cbn [fst] in *. congruence.
  - intros store rows drv upto c. unfold Migrate.
    pose proof (applied_trace drv c) as Ht.
    pose proof duplicates_never_ok as Hnever.
    destruct (applied drv c) as [[records| |] c1]; cbn [snd] in Ht; subst c1;
      try (split; reflexivity).
    destruct (available dir fs) as [[ms| |] lg]; try discriminate Hnever;
      split; reflexivity.
Qed.

End Duplicates.

Lemma duplicate_IDs_stop_witness :
  exists e,
    fst (available example_dir dup_fs) = Err e /\
    errors_Is e ErrDuplicateID = true.
Proof.
  destruct (duplicate_IDs_stop example_dir dup_fs [] [] []
              (mkEntry "1-a.sql" (Some "select 1;"))
              (mkEntry "01-b.sql" (Some "select 2;"))
              "1" "a" "01" "b" eq_refl eq_refl eq_refl eq_refl)
    as (_ & H & _).
  destruct H as (e & He & Hdup & _); [reflexivity | |].
  - apply Forall_cons; [right; eexists; vm_compute; reflexivity|].
    apply Forall_cons; [right; eexists; vm_compute; reflexivity|].
    apply Forall_nil.
  - exists e. split; assumption.
Defined.

(** C3 as stated fails: with two files of the same ID in the directory,
    discovery ends with the error of an unreadable file, or panics on a
    number that does not fit, and not with DuplicateID. *)
Lemma duplicate_IDs_counterexample :
  reparse "1-a.sql" = Some (Ok 1, "a") /\
  reparse "01-b.sql" = Some (Ok 1, "b") /\
  fst (available example_dir dup_unreadable_fs)
  = Err (PathError "read" "migrations/2-c.sql") /\
  errors_Is (PathError "read" "migrations/2-c.sql") ErrDuplicateID = false /\
  exists e, fst (available example_dir dup_overflow_fs) = Panic e.
Proof.
  repeat split; try (vm_compute; reflexivity).
  eexists. vm_compute. reflexivity.
Qed.

(** ** Creation of migration files *)

(** X18.  If the chosen ID is the ID of a file of the directory,
    [NewFile] fails with DuplicateID and leaves the directory as it
    is. *)
Lemma NewFile_duplicate_ID (now : Z) (deflt : Template) (dir : string)
    (id : MigrationID) (slug : string) (tmpl : option Template) (fs : FS)
    files lg f :
  id <> -1 ->
  available dir fs = (Ok files, lg) ->
  In f files -> ID f = id ->
  exists e,
    NewFile now deflt dir id slug tmpl fs = (Err e, fs, lg) /\
    errors_Is e ErrDuplicateID = true.
Proof.
  intros Hid Hav Hin Hf. unfold NewFile.
  destruct (Z.eqb_spec id (-1)); [contradiction|]. rewrite Hav.
  destruct (find (fun f0 => ID f0 =? id) files) as [g|] eqn:E.
  - eexists. split; reflexivity.
  - exfalso. apply find_ID_none in E. apply E. rewrite <- Hf. now apply in_map.
Qed.


Lemma find_name_some (name : string) (es : list DirEntry) e :
  find (fun x => (de_name x =? name)%string) es = Some e ->
  In e es /\ de_name e = name.
Proof.
  intros H. apply find_some in H as [Hin E].
  split; [assumption | now apply String.eqb_eq].
Qed.

(** X19.  With an ID that is a non-negative [int64] the name of the
    new file matches the pattern, so that a file already at that name
    would have been found by the check on IDs: [NewFile] then keeps
    every entry of the directory as it is.  The missing exclusive flag
    shows only for other IDs, or when the directory changes between the
    scan and the write. *)
Lemma NewFile_valid_ID_keeps_entries (now : Z) (deflt : Template)
    (dir : string) (id : MigrationID) (slug : string)
    (tmpl : option Template) (fs : FS) :
  valid_ID id ->
  forall e, In e (fs_entries fs) ->
            In e (fs_entries (snd (fst (NewFile now deflt dir id slug tmpl fs)))).
Proof.
  intros Hid e He. unfold NewFile.
  destruct (Z.eqb_spec id (-1)) as [->|_]; [destruct Hid; lia|].
  destruct (available dir fs) as [[files| |] lg] eqn:Hav; try exact He.
  destruct (find (fun f => ID f =? id) files) as [g|] eqn:Ef; [exact He|].
  cbv zeta. set (name := filename (idWidth files) id (slugify slug)).
  assert (find (fun x => (de_name x =? name)%string) (fs_entries fs) = None)
    as Hfresh.
  { destruct (find _ (fs_entries fs)) as [e0|] eqn:E0; [|reflexivity].
    exfalso. apply find_name_some in E0 as [Hin0 Hn0].
    pose proof (available_valid _ _ _ _ Hav) as Hvalid.
    pose proof (idWidth_max files Hvalid) as Hw.
    destruct (max_digit_length_bounds files Hvalid) as (_ & Hle & _).
    pose proof (max_digit_length_nonneg files) as Hge.
    assert (reFilename (de_name e0)
            = Some (zero_pad id (idWidth files), slugify slug)) as Hre.
    { rewrite Hn0. apply reFilename_filename;
        [apply Hid | lia | apply slugify_no_newline]. }
    apply available_ok_iff in Hav as (_ & Hok & _ & Hms & _).
    assert (entry_ok dir e0) as Hok0.
    { eapply Forall_In; [exact Hok|].
      eapply Permutation_in; [symmetry; apply sort_by_name_perm | exact Hin0]. }
    destruct (entry_ok_file _ _ _ _ Hok0 Hre) as (g & Hg & Hgid).
    apply find_ID_none in Ef. apply Ef.
    destruct (zero_pad_spec id (idWidth files) (proj1 Hid)) as (_ & Hval & _).
    rewrite Hval in Hgid. rewrite <- Hgid. apply in_map.
    subst files. apply sorted_files_of_entries. now exists e0. }
  unfold OpenFile. rewrite Hfresh.
  destruct (fs_writable fs); [|exact He].
  destruct (match tmpl with Some t => t | None => deflt end _) as [out err].
  cbn [fst snd WriteFile fs_entries]. apply in_map_iff. exists e.
  split; [|apply in_or_app; now left].
  destruct (String.eqb_spec (de_name e) name) as [E|_]; [|reflexivity].
  exfalso. pose proof (find_none _ _ Hfresh e He) as Hf. cbv beta in Hf.
  rewrite E, String.eqb_refl in Hf. discriminate.
Qed.

(** ** Renaming *)

Lemma Rename_fresh (dir old new : string) (fs fs' : FS) :
  Rename dir old new fs = (None, fs') ->
  (forall e, In e (fs_entries fs) -> de_name e <> new) ->
  fs_entries fs'
  = map (fun e => if (de_name e =? old)%string
                  then mkEntry new (de_data e) else e) (fs_entries fs) /\
  fs_listable fs' = fs_listable fs /\ fs_writable fs' = fs_writable fs.
Proof.
  unfold Rename. destruct (fs_writable fs && has_entry old fs); [|discriminate].
  intros [= <-] Hfresh. cbn [fs_entries fs_listable fs_writable].
  repeat split. f_equal.
  induction (fs_entries fs) as [|e r IH]; [reflexivity|]. cbn [filter].
  destruct (String.eqb_spec (de_name e) new) as [E|_].
  - exfalso. apply (Hfresh e (or_introl eq_refl) E).
  - rewrite orb_true_r. f_equal. apply IH.
    intros x Hx. apply Hfresh. now right.
Qed.

Lemma do_renames_closed_form (dir : string) (rs : list (string * string)) :
  forall fs fs',
    do_renames dir rs fs = (None, fs') ->
    (forall r e, In r rs -> In e (fs_entries fs) -> de_name e <> snd r) ->
    (forall r r', In r rs -> In r' rs -> snd r <> fst r') ->
    NoDup (map snd rs) ->
    fs_entries fs' = map (apply_renames rs) (fs_entries fs) /\
    fs_listable fs' = fs_listable fs /\ fs_writable fs' = fs_writable fs.
Proof.
  induction rs as [|[o n] rest IH]; intros fs fs'; cbn [do_renames].
  - intros [= <-] _ _ _. unfold apply_renames. cbn [find].
    now rewrite map_id.
  - destruct (Rename dir o n fs) as [[e|] fs1] eqn:Er; [discriminate|].
    intros Hdo Hfresh Hsrc Hnd.
    destruct (Rename_fresh _ _ _ _ _ Er) as (He1 & Hl1 & Hw1).
    { intros e He. apply (Hfresh (o, n) e); [now left | assumption]. }
    inversion Hnd as [|? ? Hn Hnd']; subst.
    destruct (IH fs1 fs' Hdo) as (He & Hl & Hw).
    + intros r e Hr He. rewrite He1 in He.
      apply in_map_iff in He as (x & <- & Hx).
      destruct (String.eqb_spec (de_name x) o) as [_|_]; cbn [de_name].
      * intros E. apply Hn. rewrite E. now apply in_map.
      * apply Hfresh; [now right | assumption].
    + intros r r' Hr Hr'. apply Hsrc; now right.
    + assumption.
    + split; [|split; congruence].
      rewrite He, He1, map_map. apply map_ext. intros e.
      unfold apply_renames at 2. cbn [find fst snd].
      rewrite (String.eqb_sym o (de_name e)).
      destruct (String.eqb_spec (de_name e) o) as [E|_]; [|reflexivity].
      unfold apply_renames. cbn [de_name de_data].
      destruct (find (fun r => (fst r =? n)%string) rest) as [r|] eqn:Ef;
        [|reflexivity].
      exfalso. apply find_some in Ef as [Hr Hf].
      apply String.eqb_eq in Hf.
      apply (Hsrc (o, n) r (or_introl eq_refl) (or_intror Hr)).
      now rewrite Hf.
Qed.

(** ** The plan of renames *)

Lemma file_of_entry_parsed (dir : string) (e : DirEntry) f :
  file_of_entry dir e = Some f -> parsed_file f.
Proof.
  intros H. apply file_of_entry_inv in H as (Hre & Hid & _ & Hn & _).
  split; [now rewrite Hn | assumption].
Qed.

Lemma parsed_file_facts (f : migrationFile) :
  parsed_file f ->
  valid_ID (ID f) /\ no_newline (Slug f) = true /\
  ID f = parse_digits 0 (idRaw f).
Proof.
  intros [Hre Hid]. apply reFilename_inv in Hre as (_ & Hd & Hne & Hnl).
  destruct (mustID_ok_valid _ _ Hd Hne Hid) as [Hv Hval]. tauto.
Qed.

Lemma target_parses (w : Z) (f : migrationFile) :
  parsed_file f -> 0 <= w <= 1000000 ->
  reFilename (filename w (ID f) (Slug f)) = Some (zero_pad (ID f) w, Slug f) /\
  mustID (zero_pad (ID f) w) = Ok (ID f).
Proof.
  intros Hp Hw. destruct (parsed_file_facts f Hp) as (Hv & Hnl & _).
  split; [apply reFilename_filename; [apply Hv | assumption | assumption]|].
  now apply mustID_zero_pad.
Qed.

Lemma plan_renames_In (w : Z) (ms : list migrationFile) r :
  In r (plan_renames w ms) <->
  exists f, In f ms /\ len (idRaw f) <> w /\
            r = (Name f, filename w (ID f) (Slug f)).
Proof.
  induction ms as [|f rest IH]; cbn [plan_renames].
  - split; [intros [] | intros (? & [] & _)].
  - destruct (Z.eqb_spec (len (idRaw f)) w) as [E|N].
    + rewrite IH. split.
      * intros (g & Hg & H). exists g. split; [now right | assumption].
      * intros (g & [<-|Hg] & Hn & H); [contradiction|].
        exists g. repeat split; assumption.
    + cbn [In]. rewrite IH. split.
      * intros [<-|(g & Hg & H)].
        -- exists f. repeat split; [now left | assumption].
        -- exists g. split; [now right | assumption].
      * intros (g & [<-|Hg] & Hn & H); [left; now symmetry|].
        right. exists g. repeat split; assumption.
Qed.

Lemma plan_renames_nil (w : Z) (ms : list migrationFile) :
  Forall (fun f => len (idRaw f) = w) ms -> plan_renames w ms = [].
Proof.
  induction 1 as [|f rest Hf Hr IH]; cbn [plan_renames]; [reflexivity|].
  destruct (Z.eqb_spec (len (idRaw f)) w); [assumption | contradiction].
Qed.

Lemma same_target_same_ID (w : Z) (f g : migrationFile) :
  parsed_file f -> parsed_file g -> 0 <= w <= 1000000 ->
  filename w (ID f) (Slug f) = filename w (ID g) (Slug g) ->
  ID f = ID g.
Proof.
  intros Hf Hg Hw E.
  destruct (target_parses w f Hf Hw) as [Hre Hid].
  destruct (target_parses w g Hg Hw) as [Hre' Hid'].
  rewrite E, Hre' in Hre. injection Hre as Hz _.
  rewrite Hz in Hid'. congruence.
Qed.

Lemma plan_targets_NoDup (w : Z) (ms : list migrationFile) :
  Forall parsed_file ms -> 0 <= w <= 1000000 -> NoDup (map ID ms) ->
  NoDup (map snd (plan_renames w ms)).
Proof.
  intros Hp Hw. induction Hp as [|f rest Hf Hr IH]; cbn [plan_renames map];
    intros Hnd; [constructor|].
  inversion Hnd as [|? ? Hni Hnd']; subst.
  destruct (len (idRaw f) =? w); [now apply IH|].
  cbn [map snd]. constructor; [|now apply IH].
  intros Hin. apply in_map_iff in Hin as (r & Hr1 & Hr2).
  apply plan_renames_In in Hr2 as (g & Hg & _ & ->). cbn [snd] in Hr1.
  apply Hni. apply in_map_iff. exists g. split; [|assumption].
  apply (same_target_same_ID w g f); try assumption.
  eapply Forall_forall; [exact Hr | exact Hg].
Qed.

Lemma NoDup_map_eq {A B} (g : A -> B) (l : list A) (x y : A) :
  NoDup (map g l) -> In x l -> In y l -> g x = g y -> x = y.
Proof.
  induction l as [|a l IH]; cbn [map]; intros Hnd Hx Hy E; [destruct Hx|].
  inversion Hnd as [|? ? Hni Hnd']; subst.
  destruct Hx as [<-|Hx], Hy as [<-|Hy]; try reflexivity.
  - exfalso. apply Hni. rewrite E. now apply in_map.
  - exfalso. apply Hni. rewrite <- E. now apply in_map.
  - now apply IH.
Qed.

Lemma renumbered_name_parsed (w : Z) (f : migrationFile) :
  parsed_file f ->
  renumbered_name w (Name f)
  = if len (idRaw f) =? w then Name f else filename w (ID f) (Slug f).
Proof. intros [Hre Hid]. unfold renumbered_name. now rewrite Hre, Hid. Qed.

Section Renumbering.

Variables (dir : string) (es : list DirEntry) (ms : list migrationFile).
Variable w : Z.

Hypothesis entries_ok : Forall (entry_ok dir) es.
Hypothesis files_of_entries :
  forall f, In f ms <-> exists e, In e es /\ file_of_entry dir e = Some f.
Hypothesis distinct_IDs : NoDup (map ID ms).
Hypothesis width : w = idWidth ms.

Lemma files_parsed : Forall parsed_file ms.
Proof.
  apply Forall_forall. intros f Hf.
  apply files_of_entries in Hf as (e & _ & He).
  eapply file_of_entry_parsed, He.
Qed.

Lemma files_valid : Forall (fun f => valid_ID (ID f)) ms.
Proof.
  eapply Forall_impl; [|apply files_parsed].
  intros f Hf. now apply parsed_file_facts.
Qed.

Lemma width_bounds :
  0 <= w <= 1000000 /\ forall f, In f ms -> digit_length (ID f) <= w.
Proof.
  rewrite width, (idWidth_max ms files_valid).
  destruct (max_digit_length_bounds ms files_valid) as (Hin & Hle & _).
  pose proof (max_digit_length_nonneg ms). split; [lia | assumption].
Qed.

Lemma renumbered_file_facts (f : migrationFile) :
  In f ms ->
  ID (renumbered_file dir w f) = ID f /\
  len (idRaw (renumbered_file dir w f)) = w.
Proof.
  intros Hf. unfold renumbered_file.
  destruct (Z.eqb_spec (len (idRaw f)) w) as [E|N]; [split; [reflexivity | exact E]|].
  cbn [ID idRaw]. split; [reflexivity|].
  destruct width_bounds as [_ Hdl]. specialize (Hdl f Hf).
  pose proof (Forall_In _ _ f files_valid Hf) as Hv. cbv beta in Hv.
  destruct (zero_pad_spec (ID f) w (proj1 Hv)) as (_ & _ & Hlen & _). lia.
Qed.

Lemma targets_absent (r : string * string) (e : DirEntry) :
  In r (plan_renames w ms) -> In e es -> de_name e <> snd r.
Proof.
  intros Hr He E. apply plan_renames_In in Hr as (f & Hf & Hn & ->).
  cbn [snd] in E.
  pose proof (Forall_In _ _ f files_parsed Hf) as Hp.
  destruct (target_parses w f Hp (proj1 width_bounds)) as [Hre Hid].
  rewrite <- E in Hre.
  pose proof (Forall_In _ _ e entries_ok He) as Hoke.
  destruct (entry_ok_file _ _ _ _ Hoke Hre) as (g & Hg & Hgid).
  assert (In g ms) as Hgin by (apply files_of_entries; now exists e).
  assert (ID g = ID f) as Hsame.
  { destruct (zero_pad_spec (ID f) w) as (_ & Hval & _).
    - apply (proj1 (parsed_file_facts f Hp)).
    - congruence. }
  assert (g = f) by (eapply NoDup_map_eq; eauto). subst g.
  apply file_of_entry_inv in Hg as (Hre' & _).
  rewrite Hre in Hre'. injection Hre' as Hraw.
  destruct (renumbered_file_facts f Hf) as [_ Hlen].
  unfold renumbered_file in Hlen.
  destruct (Z.eqb_spec (len (idRaw f)) w); [contradiction|].
  cbn [idRaw] in Hlen. rewrite Hraw in Hlen. contradiction.
Qed.

Lemma targets_not_sources (r r' : string * string) :
  In r (plan_renames w ms) -> In r' (plan_renames w ms) -> snd r <> fst r'.
Proof.
  intros Hr Hr' E. apply plan_renames_In in Hr' as (f & Hf & _ & ->).
  cbn [fst] in E. apply files_of_entries in Hf as (e & He & Hfe).
  apply file_of_entry_inv in Hfe as (_ & _ & _ & Hn & _).
  apply (targets_absent r e Hr He). congruence.
Qed.

Lemma apply_renames_plan (e : DirEntry) :
  In e es -> apply_renames (plan_renames w ms) e = renumbered w e.
Proof.
  intros He. unfold apply_renames, renumbered.
  destruct (find _ (plan_renames w ms)) as [r|] eqn:Ef.
  - apply find_some in Ef as [Hr Hfst]. apply String.eqb_eq in Hfst.
    apply plan_renames_In in Hr as (f & Hf & Hn & ->). cbn [fst snd] in *.
    pose proof (Forall_In _ _ f files_parsed Hf) as Hp.
    rewrite <- Hfst, (renumbered_name_parsed w f Hp).
    destruct (Z.eqb_spec (len (idRaw f)) w); [contradiction | reflexivity].
  - destruct e as [name data]. cbn [de_name de_data] in *. f_equal.
    unfold renumbered_name.
    destruct (reFilename name) as [[raw slug]|] eqn:Ere; [|reflexivity].
    destruct (mustID raw) as [id| |] eqn:Eid; try reflexivity.
    destruct (Z.eqb_spec (len raw) w) as [_|N]; [reflexivity|].
    exfalso.
    pose proof (Forall_In _ _ _ entries_ok He) as Hoke.
    destruct Hoke as [Hno|[f Hf]]; [cbn [de_name] in Hno; congruence|].
    pose proof (file_of_entry_inv _ _ _ Hf) as (Hre & _ & _ & Hn & _).
    cbn [de_name] in Hre, Hn. rewrite Ere in Hre. injection Hre as Hraw Hslug.
    assert (In f ms) as Hin by (apply files_of_entries; eauto).
    assert (In (Name f, filename w (ID f) (Slug f)) (plan_renames w ms)) as Hp.
    { apply plan_renames_In. exists f. repeat split; [assumption | congruence]. }
    pose proof (find_none _ _ Ef _ Hp) as Hfalse. cbn [fst] in Hfalse.
    rewrite Hn, String.eqb_refl in Hfalse. discriminate.
Qed.

Lemma file_of_renumbered (e : DirEntry) :
  In e es ->
  file_of_entry dir (renumbered w e)
  = option_map (renumbered_file dir w) (file_of_entry dir e).
Proof.
  intros He.
  destruct (Forall_In _ _ e entries_ok He) as [Hno|[f Hf]].
  - unfold file_of_entry, renumbered, renumbered_name. cbn [de_name de_data].
    now rewrite !Hno.
  - rewrite Hf. cbn [option_map].
    pose proof (file_of_entry_parsed _ _ _ Hf) as Hp.
    pose proof (file_of_entry_inv _ _ _ Hf) as (Hre & Hid & Hda & Hn & Hpa).
    unfold renumbered. rewrite <- Hn, (renumbered_name_parsed w f Hp).
    unfold renumbered_file.
    destruct (Z.eqb_spec (len (idRaw f)) w) as [E|N].
    + rewrite Hn. rewrite <- Hf. reflexivity.
    + destruct (target_parses w f Hp (proj1 width_bounds)) as [Hre' Hid'].
      unfold file_of_entry. cbn [de_name de_data].
      now rewrite Hre', Hda, Hid'.
Qed.

Lemma entry_ok_renumbered (e : DirEntry) :
  In e es -> entry_ok dir (renumbered w e).
Proof.
  intros He. pose proof (file_of_renumbered e He) as H.
  destruct (Forall_In _ _ e entries_ok He) as [Hno|[f Hf]].
  - left. unfold renumbered, renumbered_name. cbn [de_name]. now rewrite !Hno.
  - right. rewrite Hf in H. eexists. exact H.
Qed.

Lemma files_of_renumbered (l : list DirEntry) :
  incl l es ->
  files_of dir (map (renumbered w) l)
  = map (renumbered_file dir w) (files_of dir l).
Proof.
  induction l as [|e r IH]; intros Hincl; [reflexivity|].
  cbn [map files_of].
  rewrite (file_of_renumbered e (Hincl e (or_introl eq_refl))).
  assert (incl r es) as Hr by (intros x Hx; apply Hincl; now right).
  destruct (file_of_entry dir e); cbn [option_map map]; now rewrite (IH Hr).
Qed.

End Renumbering.

Lemma fold_max_perm (l l' : list Z) :
  Permutation l l' -> fold_right Z.max 0 l = fold_right Z.max 0 l'.
Proof.
  induction 1; cbn [fold_right]; lia.
Qed.

Lemma max_digit_length_perm (a b : list migrationFile) :
  Permutation (map ID a) (map ID b) ->
  max_digit_length a = max_digit_length b.
Proof.
  intros H. unfold max_digit_length.
  rewrite <- (map_map ID digit_length a), <- (map_map ID digit_length b).
  apply fold_max_perm. now apply Permutation_map.
Qed.

Lemma plan_renames_nil_inv (w : Z) (ms : list migrationFile) :
  plan_renames w ms = [] -> Forall (fun f => len (idRaw f) = w) ms.
Proof.
  induction ms as [|f rest IH]; cbn [plan_renames]; [constructor|].
  destruct (Z.eqb_spec (len (idRaw f)) w); [|discriminate].
  intros H. constructor; [assumption | now apply IH].
Qed.

(** The directory after a completed run of the renames: every entry has
    its renumbered name, nothing else has changed. *)
Lemma do_renames_renumbers (dir : string) (fs fs' : FS) ms lg :
  available dir fs = (Ok ms, lg) ->
  do_renames dir (plan_renames (idWidth ms) ms) fs = (None, fs') ->
  fs_entries fs' = map (renumbered (idWidth ms)) (fs_entries fs) /\
  fs_listable fs' = fs_listable fs.
Proof.
  intros Hav Hdo.
  pose proof (files_parsed dir (fs_entries fs) ms) as Hparsed.
  apply available_ok_iff in Hav as (Hl & Hok & Hnd & Hms & _).
  assert (Forall (entry_ok dir) (fs_entries fs)) as Hoke
    by (eapply Permutation_Forall; [apply sort_by_name_perm | exact Hok]).
  assert (forall f, In f ms <->
            exists e, In e (fs_entries fs) /\ file_of_entry dir e = Some f)
    as Hfiles by (subst ms; apply sorted_files_of_entries).
  rewrite <- Hms in Hnd.
  destruct (do_renames_closed_form dir _ fs fs' Hdo) as (He & Hl' & _).
  - eapply targets_absent; eauto.
  - eapply targets_not_sources; eauto.
  - apply plan_targets_NoDup; [auto | | assumption].
    eapply width_bounds; eauto.
  - split; [|assumption]. rewrite He. apply map_ext_in.
    intros e Hin. eapply apply_renames_plan; eauto.
Qed.

(** C8.  Renumbering is idempotent: after a run of [Renumber] with
    [write] on has completed, a second run finds every migration file
    with its digits at the computed width, so it plans no rename,
    reports that there is nothing to do and leaves the directory as it
    is, without any operation on it. *)
Theorem Renumber_idempotent (dir : string) (fs fs1 : FS)
    (lg1 : list LogLine) :
  Renumber dir true fs = (Ok tt, fs1, lg1) ->
  exists files lg2,
    available dir fs1 = (Ok files, lg2) /\
    Forall (fun f => len (idRaw f) = idWidth files) files /\
    plan_renames (idWidth files) files = [] /\
    Renumber dir true fs1 = (Ok tt, fs1, (lg2 ++ [Infof "Nothing to do." []])%list).
Proof.
  intros H. unfold Renumber in H.
  destruct (available dir fs) as [[ms| |] lg0] eqn:Hav; try discriminate H.
  cbv zeta in H.
  destruct (plan_renames (idWidth ms) ms) as [|r rs] eqn:Epl.
  - injection H as <- <-. exists ms, lg0.
    split; [assumption|]. split; [now apply plan_renames_nil_inv|].
    split; [assumption|]. unfold Renumber. rewrite Hav. cbv zeta.
    now rewrite Epl.
  - cbn [negb] in H.
    destruct (do_renames dir (r :: rs) fs) as [[e|] fs'] eqn:Edo;
      [discriminate H|].
    injection H as <- _. rewrite <- Epl in Edo. clear Epl r rs.
    destruct (do_renames_renumbers dir fs fs' ms lg0 Hav Edo) as [He Hl'].
    set (w := idWidth ms) in *. set (es := fs_entries fs) in *.
    pose proof Hav as Hav0.
    apply available_ok_iff in Hav as (Hl & Hok & Hnd & Hms & _).
    fold es in Hok, Hnd, Hms.
    assert (Forall (entry_ok dir) es) as Hoke
      by (eapply Permutation_Forall; [apply sort_by_name_perm | exact Hok]).
    assert (forall f, In f ms <->
              exists e, In e es /\ file_of_entry dir e = Some f)
      as Hfiles by (subst ms; apply sorted_files_of_entries).
    assert (files_of dir (fs_entries fs')
            = map (renumbered_file dir w) (files_of dir es)) as Hfo.
    { rewrite He. eapply files_of_renumbered; eauto. apply incl_refl. }
    assert (Permutation (files_of dir (sort_by_name (fs_entries fs')))
              (map (renumbered_file dir w) ms)) as Hperm.
    { rewrite (files_of_perm dir _ _ (sort_by_name_perm _)), Hfo, Hms.
      apply Permutation_map, files_of_perm. symmetry. apply sort_by_name_perm. }
    assert (map ID (map (renumbered_file dir w) ms) = map ID ms) as HIDs.
    { rewrite map_map. apply map_ext_in. intros f Hf.
      eapply renumbered_file_facts; eauto. }
    assert (available dir fs'
            = (Ok (files_of dir (sort_by_name (fs_entries fs'))),
               ignored_log (sort_by_name (fs_entries fs')))) as Hav1.
    { apply available_ok_iff. split; [congruence|].
      split; [|split; [|split; reflexivity]].
      - eapply Permutation_Forall; [symmetry; apply sort_by_name_perm|].
        rewrite He. apply Forall_forall. intros x Hx.
        apply in_map_iff in Hx as (e0 & <- & He0).
        eapply entry_ok_renumbered; eauto.
      - eapply Permutation_NoDup;
          [symmetry; apply Permutation_map, Hperm|].
        rewrite HIDs, Hms. exact Hnd. }
    set (ms1 := files_of dir (sort_by_name (fs_entries fs'))) in *.
    assert (idWidth ms1 = w) as Hw1.
    { rewrite (idWidth_max ms1) by (eapply available_valid, Hav1).
      unfold w. rewrite (idWidth_max ms) by (eapply available_valid, Hav0).
      apply max_digit_length_perm. rewrite <- HIDs.
      now apply Permutation_map. }
    assert (Forall (fun f => len (idRaw f) = idWidth ms1) ms1) as Hall.
    { rewrite Hw1.
      eapply Permutation_Forall; [symmetry; exact Hperm|].
      apply Forall_forall. intros x Hx.
      apply in_map_iff in Hx as (f & <- & Hf).
      eapply renumbered_file_facts; eauto. }
    exists ms1, (ignored_log (sort_by_name (fs_entries fs'))).
    split; [assumption|]. split; [assumption|].
    split; [now apply plan_renames_nil|].
    unfold Renumber. rewrite Hav1. cbv zeta.
    now rewrite (plan_renames_nil _ _ Hall).
Qed.

Lemma Renumber_idempotent_witness :
  let fs1 :=
    mkFS true true
      [mkEntry "01-a.sql" (Some "select 1;");
       mkEntry "README.md" (Some "notes");
       mkEntry "20-b.sql" (Some "select 2;")]
      [OpRename "020-b.sql" "20-b.sql"; OpRename "1-a.sql" "01-a.sql"] in
  exists files lg2,
    available example_dir fs1 = (Ok files, lg2) /\
    Forall (fun f => len (idRaw f) = idWidth files) files /\
    plan_renames (idWidth files) files = [] /\
    Renumber example_dir true fs1
    = (Ok tt, fs1, (lg2 ++ [Infof "Nothing to do." []])%list).
Proof.
  cbv zeta. eapply (Renumber_idempotent example_dir example_fs).
  vm_compute. reflexivity.
Defined.

Example Renumber_scenario :
  fst (Renumber example_dir false scenario_fs) = (Ok tt, scenario_fs) /\
  snd (Renumber example_dir false scenario_fs)
  = [Infof "Renames:" [];
     InfofTable ["Old"; "->"; "New"]
       [["1-a.sql"; "->"; "001-a.sql"]; ["20-b.sql"; "->"; "020-b.sql"]];
     Infof "Skipping renames because write is off" []] /\
  map de_name (fs_entries (snd (fst (Renumber example_dir true scenario_fs))))
  = ["001-a.sql"; "020-b.sql"; "300-c.sql"].
Proof. repeat split; vm_compute; reflexivity. Qed.

(** * Further properties *)

(** ** Migration IDs *)

Lemma ParseInt_FormatInt (i : Z) : in_int64 i -> ParseInt (FormatInt i) = Ok i.
Proof.
  intros [Hlo Hhi]. unfold FormatInt.
  destruct (Z.ltb_spec i 0) as [Hneg|Hpos].
  - destruct (FormatUint_spec (- i)) as (Hall & Hval & Hlen & H1); [lia|].
    unfold ParseInt. cbn [append].
    change (Ascii.eqb "-" "+") with false. change (Ascii.eqb "-" "-") with true.
    cbv iota.
    destruct (String.eqb_spec (FormatUint (- i)) "") as [E|_].
    { rewrite E in Hlen. unfold len in Hlen. simpl in Hlen. lia. }
    rewrite Hall, Hval. cbn [negb orb].
    destruct (Z.ltb_spec (- - i) minInt64); [lia|].
    destruct (Z.ltb_spec maxInt64 (- - i)); [unfold maxInt64, minInt64 in *; lia|].
    cbn [orb]. f_equal. lia.
  - destruct (FormatUint_spec i Hpos) as (Hall & Hval & Hlen & H1).
    rewrite ParseInt_digits; [|assumption|].
    + rewrite Hval. destruct (Z.ltb_spec maxInt64 i); [lia | reflexivity].
    + intros E. rewrite E in Hlen. unfold len in Hlen. simpl in Hlen. lia.
Qed.

Lemma ParseInt_range (s : string) (i : Z) : ParseInt s = Ok i -> in_int64 i.
Proof.
  unfold ParseInt.
  destruct (match s with
            | "" => (false, s)
            | String c r =>
                if Ascii.eqb c "+" then (false, r)
                else if Ascii.eqb c "-" then (true, r) else (false, s)
            end) as [neg body].
  destruct ((body =? "")%string || negb (all_digits body)); [discriminate|].
  set (v := if neg then _ else _).
  destruct (Z.ltb_spec v minInt64); [discriminate|].
  destruct (Z.ltb_spec maxInt64 v); [discriminate|].
  cbn [orb]. intros [= <-]. split; assumption.
Qed.



(** X2.  [Set] on the numeral of a negative [int64] fails with
    [ErrNegativeID], and the receiver is overwritten with 0 all the
    same. *)
Theorem Set_negative (m i : Z) :
  minInt64 <= i < 0 ->
  exists e,
    MigrationID_Set m (FormatInt i) = (0, Some e) /\
    errors_Is e ErrNegativeID = true.
Proof.
  intros [Hlo Hhi]. unfold MigrationID_Set.
  rewrite ParseInt_FormatInt by (unfold in_int64, maxInt64; lia).
  unfold NewMigrationID. destruct (Z.ltb_spec i 0); [|lia].
  eexists. split; reflexivity.
Qed.

Lemma Set_negative_witness :
  exists e,
    MigrationID_Set 7 "-5" = (0, Some e) /\ errors_Is e ErrNegativeID = true.
Proof.
  apply (Set_negative 7 (-5)). unfold minInt64. lia.
Defined.

(** X3.  A [Set] that succeeds leaves a valid ID (a non-negative
    [int64]), the value that [strconv.ParseInt] read: the default -1 of
    the flags of the command never comes out of a flag that was given,
    and a ceiling that was given, also 0, is passed to [Migrate]. *)
Theorem Set_success_valid (m id : MigrationID) (s : string) :
  MigrationID_Set m s = (id, None) ->
  valid_ID id /\ ParseInt s = Ok id /\ ceiling_of_flag id = Some id /\
  ceiling_of_flag (-1) = None.
Proof.
  unfold MigrationID_Set. destruct (ParseInt s) as [i| |] eqn:E; try discriminate.
  apply ParseInt_range in E as [_ Hhi]. unfold NewMigrationID.
  destruct (Z.ltb_spec i 0) as [|Hpos]; [discriminate|].
  intros [= <-]. unfold valid_ID, ceiling_of_flag.
  destruct (Z.leb_spec 0 i); [|lia]. repeat split; assumption.
Qed.

Lemma Set_success_valid_witness :
  valid_ID 0 /\ ceiling_of_flag 0 = Some 0.
Proof.
  destruct (Set_success_valid (-1) 0 "0" eq_refl) as (H1 & _ & H2 & _).
  split; assumption.
Defined.

(** X4.  On the digits of a file name that matches the pattern,
    [mustID] cannot meet a negative number: it returns the value of the
    digits when that fits in an [int64], and panics with the range
    error of [strconv] exactly when it does not. *)
Theorem mustID_of_match (name raw slug : string) :
  reFilename name = Some (raw, slug) ->
  0 <= parse_digits 0 raw /\
  (parse_digits 0 raw <= maxInt64 -> mustID raw = Ok (parse_digits 0 raw)) /\
  (maxInt64 < parse_digits 0 raw ->
   exists e, mustID raw = Panic e /\ errors_Is e ErrNegativeID = false).
Proof.
  intros H. apply reFilename_inv in H as (_ & Hd & Hne & _).
  rewrite (mustID_digits raw Hd Hne).
  split; [now apply parse_digits_nonneg|]. split.
  - intros Hle. destruct (Z.ltb_spec maxInt64 (parse_digits 0 raw)); [lia | reflexivity].
  - intros Hgt. destruct (Z.ltb_spec maxInt64 (parse_digits 0 raw)); [|lia].
    eexists. split; reflexivity.
Qed.

Lemma mustID_of_match_witness :
  mustID "00042" = Ok 42 /\
  exists e, mustID "99999999999999999999" = Panic e.
Proof.
  destruct (mustID_of_match "00042-a.sql" "00042" "a" eq_refl) as (_ & H & _).
  destruct (mustID_of_match "99999999999999999999-a.sql"
              "99999999999999999999" "a" eq_refl) as (_ & _ & H').
  split.
  - apply H. vm_compute. discriminate.
  - destruct H' as (e & He & _); [vm_compute; reflexivity|]. now exists e.
Defined.

(** ** Discovery, names and slugs *)

(** X5.  What [available] returns is well formed: the IDs are pairwise
    distinct, and every file has the name of an entry of the directory
    and that entry's content, its name is its raw digits, a hyphen, its
    slug and [.sql], its ID is the value of the digits (a valid ID), its
    slug has no line feed and its path is the name joined to the
    directory; every entry whose name matches the pattern is among
    them. *)
Theorem available_well_formed (dir : string) (fs : FS)
    (files : list migrationFile) (lg : list LogLine) :
  available dir fs = (Ok files, lg) ->
  NoDup (map ID files) /\
  (forall f, In f files ->
     Name f = idRaw f ++ "-" ++ Slug f ++ ".sql" /\
     Path f = Join dir (Name f) /\
     all_digits (idRaw f) = true /\ idRaw f <> "" /\
     ID f = parse_digits 0 (idRaw f) /\ valid_ID (ID f) /\
     no_newline (Slug f) = true /\
     In (mkEntry (Name f) (Some (Content f))) (fs_entries fs)) /\
  (forall e, In e (fs_entries fs) -> reFilename (de_name e) <> None ->
     exists f, In f files /\ Name f = de_name e).
Proof.
  intros H. apply available_ok_iff in H as (_ & Hok & Hnd & -> & _).
  split; [assumption|]. split.
  - intros f Hf. apply sorted_files_of_entries in Hf as (e & He & Hfe).
    pose proof (file_of_entry_inv _ _ _ Hfe) as (Hre & Hid & Hda & Hn & Hp).
    pose proof (reFilename_inv _ _ _ Hre) as (Hname & Hd & Hne & Hnl).
    destruct (mustID_ok_valid _ _ Hd Hne Hid) as [Hval Hv].
    rewrite Hn.
    split; [assumption|]. split; [assumption|]. split; [assumption|].
    split; [assumption|]. split; [assumption|]. split; [assumption|].
    split; [assumption|].
    destruct e as [n d]. cbn [de_name de_data] in *. now subst d.
  - intros e He Hm.
    assert (entry_ok dir e) as [Hno|[f Hf]].
    { eapply Forall_In; [exact Hok|].
      eapply Permutation_in; [symmetry; apply sort_by_name_perm | exact He]. }
    + contradiction.
    + exists f. split; [apply sorted_files_of_entries; now exists e|].
      now apply file_of_entry_inv in Hf.
Qed.

Lemma available_well_formed_witness :
  exists f1 f2, fst (available example_dir example_fs) = Ok [f1; f2] /\
                ID f1 <> ID f2.
Proof.
  eexists _, _. split; [vm_compute; reflexivity|].
  match goal with
  | |- ID ?a <> ID ?b =>
      destruct (available_well_formed example_dir example_fs [a; b]
                  (ignored_log (sort_by_name (fs_entries example_fs))))
        as (Hnd & _); [vm_compute; reflexivity|]
  end.
  inversion Hnd as [|? ? Hni _]; subst. intros E. apply Hni. left.
  symmetry. exact E.
Defined.

Lemma read_migrations_skip (dir : string) (e : DirEntry) (l : list DirEntry) :
  reFilename (de_name e) = None ->
  fst (read_migrations dir (e :: l)) = fst (read_migrations dir l).
Proof.
  intros Hno. cbn [read_migrations]. rewrite Hno.
  now destruct (read_migrations dir l).
Qed.

Lemma read_migrations_cons (dir : string) (x : DirEntry) (l l' : list DirEntry) :
  fst (read_migrations dir l) = fst (read_migrations dir l') ->
  fst (read_migrations dir (x :: l)) = fst (read_migrations dir (x :: l')).
Proof.
  intros H. cbn [read_migrations].
  destruct (reFilename (de_name x)) as [[raw slug]|].
  - destruct (de_data x); [|reflexivity].
    destruct (mustID raw); try reflexivity.
    destruct (read_migrations dir l), (read_migrations dir l').
    cbn [fst] in *. now subst.
  - destruct (read_migrations dir l), (read_migrations dir l').
    cbn [fst] in *. now subst.
Qed.

Lemma read_migrations_insert (dir : string) (e : DirEntry) (l : list DirEntry) :
  reFilename (de_name e) = None ->
  fst (read_migrations dir (insert_by_name e l)) = fst (read_migrations dir l).
Proof.
  intros Hno. induction l as [|x r IH]; cbn [insert_by_name].
  - now apply read_migrations_skip.
  - destruct (String.leb (de_name e) (de_name x)).
    + now apply read_migrations_skip.
    + now apply read_migrations_cons.
Qed.

(** X6.  An entry whose name does not match the pattern (a file of
    another kind, a sub-directory, readable or not) changes nothing in
    what [available] returns: the same files, the same error or the same
    panic as without it. *)
Theorem available_ignores_other_entries (dir : string) (e : DirEntry) (fs : FS) :
  reFilename (de_name e) = None ->
  fst (available dir (with_entry e fs)) = fst (available dir fs).
Proof.
  intros Hno. unfold available, ReadDir, with_entry. cbn [fs_listable fs_entries].
  destruct (fs_listable fs); [|reflexivity].
  cbn [sort_by_name fold_right]. fold (sort_by_name (fs_entries fs)).
  pose proof (read_migrations_insert dir e (sort_by_name (fs_entries fs)) Hno) as H.
  destruct (read_migrations dir (insert_by_name e _)) as [r1 lg1],
           (read_migrations dir (sort_by_name (fs_entries fs))) as [r2 lg2].
  cbn [fst] in H. subst r1.
  destruct r2 as [ms| |]; try reflexivity.
  now destruct (check_duplicates [] ms).
Qed.

Lemma available_ignores_other_entries_witness :
  fst (available example_dir
         (with_entry (mkEntry "notes.txt" None) example_fs))
  = fst (available example_dir example_fs).
Proof. apply available_ignores_other_entries. reflexivity. Defined.

(** X7.  For one width, [filename] gives different names to different
    pairs of a valid ID and a slug without line feed: no two migrations
    are sent to the same file. *)
Theorem filename_injective (w : Z) (id1 id2 : MigrationID) (s1 s2 : string) :
  0 <= w <= 1000000 ->
  valid_ID id1 -> valid_ID id2 ->
  no_newline s1 = true -> no_newline s2 = true ->
  filename w id1 s1 = filename w id2 s2 ->
  id1 = id2 /\ s1 = s2.
Proof.
  intros Hw H1 H2 Hn1 Hn2 E.
  pose proof (reFilename_filename w id1 s1 (proj1 H1) Hw Hn1) as R1.
  pose proof (reFilename_filename w id2 s2 (proj1 H2) Hw Hn2) as R2.
  rewrite E, R2 in R1. injection R1 as Hz Hs. split; [|now symmetry].
  pose proof (mustID_zero_pad id1 w H1) as M1.
  pose proof (mustID_zero_pad id2 w H2) as M2.
  rewrite <- Hz, M2 in M1. now injection M1.
Qed.

Lemma filename_injective_witness : 7 = 7 /\ "a" = "a".
Proof.
  apply (filename_injective 3 7 7 "a" "a"); try reflexivity;
    unfold valid_ID, maxInt64; lia.
Defined.

Lemma replace_runs_normalized (b : bool) (s : string) :
  normalized b (replace_runs b s) = true.
Proof.
  revert b; induction s as [|c r IH]; intros b; [reflexivity|].
  cbn [replace_runs]. destruct (is_separator c) eqn:Hc.
  - destruct b; [apply IH|]. cbn [normalized].
    change (is_separator "_") with true. cbv iota.
    change (Ascii.eqb "_" "_") with true. cbn [negb andb]. apply IH.
  - cbn [normalized]. rewrite Hc. apply IH.
Qed.

Lemma replace_runs_length (b : bool) (s : string) :
  (String.length (replace_runs b s) <= String.length s)%nat.
Proof.
  revert b; induction s as [|c r IH]; intros b; [apply le_n|].
  cbn [replace_runs]. destruct (is_separator c).
  - destruct b; cbn [String.length].
    + specialize (IH true). lia.
    + specialize (IH true). lia.
  - cbn [String.length]. specialize (IH false). lia.
Qed.

Lemma replace_runs_clean (b : bool) (s : string) :
  no_separator s = true -> replace_runs b s = s.
Proof.
  revert b; induction s as [|c r IH]; intros b; [reflexivity|].
  cbn [no_separator replace_runs]. intros H. apply andb_prop in H as [Hc Hr].
  destruct (is_separator c); [discriminate|]. now rewrite IH.
Qed.

(** X8.  The slug that [slugify] returns is normalized: the only
    separator left in it is the underscore, never twice in a row, and
    it has no line feed; it is not longer than the input, and an input
    without separators is returned as it is. *)
Theorem slugify_normalized (s : string) :
  normalized false (slugify s) = true /\
  no_newline (slugify s) = true /\
  (String.length (slugify s) <= String.length s)%nat /\
  (no_separator s = true -> slugify s = s).
Proof.
  unfold slugify. split; [apply replace_runs_normalized|].
  split; [apply slugify_no_newline|].
  split; [apply replace_runs_length | apply replace_runs_clean].
Qed.

Lemma slugify_normalized_witness : slugify "users" = "users".
Proof. apply slugify_normalized. reflexivity. Defined.

Lemma prefix_before_LF (p s b : string) :
  no_newline p = true ->
  prefix p (s ++ String LF b) = prefix p s.
Proof.
  revert s; induction p as [|c p IH]; intros s Hp.
  - destruct s; reflexivity.
  - cbn [no_newline] in Hp. apply andb_prop in Hp as [Hc Hp].
    destruct s as [|d s]; cbn [append prefix].
    + destruct (ascii_dec c LF) as [->|_]; [discriminate Hc | reflexivity].
    + destruct (ascii_dec c d); [now apply IH | reflexivity].
Qed.

Lemma match_at_line_start_lines (bol : bool) (a b : string) :
  match_at_line_start bol (a ++ String LF b)
  = match_at_line_start bol a || match_at_line_start true b.
Proof.
  revert bol; induction a as [|c r IH]; intros bol.
  - cbn [append]. cbn [match_at_line_start].
    change (prefix noTxDirective (String LF b)) with false.
    change (prefix noTxDirective "") with false.
    change (Ascii.eqb LF LF) with true.
    rewrite !andb_false_r. reflexivity.
  - cbn [append]. cbn [match_at_line_start].
    change (String c (r ++ String LF b)) with (String c r ++ String LF b).
    rewrite prefix_before_LF by reflexivity.
    rewrite IH. now rewrite orb_assoc.
Qed.

(** X9.  The directive is looked for line by line: a content made of
    two parts separated by a line feed skips the transaction exactly
    when one of the parts does. *)
Theorem skipTx_lines (a b : string) :
  skipTx (a ++ String LF b) = skipTx a || skipTx b.
Proof. apply match_at_line_start_lines. Qed.

(** ** Migrating *)

Lemma filter_none {A} (p : A -> bool) (l : list A) :
  (forall x, In x l -> p x = false) -> filter p l = [].
Proof.
  induction l as [|x r IH]; intros H; cbn [filter]; [reflexivity|].
  rewrite (H x (or_introl eq_refl)). apply IH. intros y Hy. apply H. now right.
Qed.

(** X10.  When the ledger already has the ID of every available file,
    [Migrate] applies nothing: it succeeds, the ledger query is its only
    call to the database, and the committed state is untouched.  So a
    second run after a complete one is a no-op. *)
Theorem Migrate_nothing_pending {store rows : Type} (drv : Driver store rows)
    (dir : string) (upto : option MigrationID) (fs : FS) (c : Conn store)
    records files lg :
  fst (applied drv c) = Ok records ->
  available dir fs = (Ok files, lg) ->
  (forall f, In f files -> In (ID f) (map rec_ID records)) ->
  Migrate drv dir upto fs c
  = (Ok tt, mkConn (committed c) (trace c ++ [EvQuery qApplied]),
     (lg ++ [Infof "All migrations applied!" []])%list).
Proof.
  intros Ha Hv Hall. unfold Migrate.
  pose proof (applied_trace drv c) as Ht.
  destruct (applied drv c) as [r c1]. cbn [fst snd] in Ha, Ht. subst r c1.
  rewrite Hv. unfold diff. rewrite filter_none.
  - reflexivity.
  - intros f Hf. apply Hall in Hf. apply existsb_eqb_In in Hf. now rewrite Hf.
Qed.

Lemma Migrate_nothing_pending_witness :
  Migrate toy_driver example_dir None
    (mkFS true true [mkEntry "0-init.sql" (Some "--drift:no-transaction")] [])
    toy_ready
  = (Ok tt, mkConn (committed toy_ready) [EvQuery qApplied],
     [Infof "All migrations applied!" []]).
Proof.
  apply (Migrate_nothing_pending toy_driver example_dir None _ toy_ready
           [mkRecord 0 "init" 0] [file_init] []).
  - reflexivity.
  - vm_compute. reflexivity.
  - intros f [<-|[]]. now left.
Defined.

(** X11.  On a database that has no ledger table yet, [Migrate] takes
    the ledger for empty: it applies the available files within the
    ceiling, all of them without a ceiling, in ascending order of ID,
    stopping at the first error. *)
Theorem Migrate_without_ledger {store rows : Type} (drv : Driver store rows)
    (dir : string) (upto : option MigrationID) (fs : FS) (c : Conn store)
    e files lg :
  drv_query drv qApplied (committed c) = inl e ->
  errors_As_PgError e = Some undefined_table ->
  available dir fs = (Ok files, lg) ->
  let c1 := mkConn (committed c) (trace c ++ [EvQuery qApplied]) in
  let todo := filter (kept upto) (sort_by_ID files) in
  (upto = None -> todo = sort_by_ID files) /\
  exists lg',
    Migrate drv dir upto fs c
    = (result_of (fst (apply_all drv todo c1)), snd (apply_all drv todo c1),
       (lg ++ lg')%list).
Proof.
  intros Hq He Hv c1 todo. split.
  - intros ->. unfold todo. now apply filter_all.
  - unfold Migrate, applied, Query, record_event. rewrite Hq, He.
    rewrite String.eqb_refl, Hv. fold c1.
    unfold diff. cbn [map existsb negb]. rewrite (filter_all _ files) by reflexivity.
    destruct (migrate_loop_kept drv upto (sort_by_ID files) c1) as (lg1 & -> & _).
    fold todo. destruct (fst (apply_all drv todo c1)); eexists; reflexivity.
Qed.

Lemma Migrate_without_ledger_witness :
  exists lg',
    Migrate toy_driver example_dir None
      (mkFS true true [mkEntry "0-init.sql" (Some "--drift:no-transaction")] [])
      toy_fresh
    = (Ok tt,
       mkConn (mkToy false [] ["--drift:no-transaction"])
         [EvQuery qApplied; EvExec false "--drift:no-transaction" []],
       lg').
Proof.
  destruct (Migrate_without_ledger toy_driver example_dir None
              (mkFS true true
                 [mkEntry "0-init.sql" (Some "--drift:no-transaction")] [])
              toy_fresh (PgError undefined_table) [file_init] [])
    as (_ & lg' & H); [reflexivity | reflexivity | vm_compute; reflexivity|].
  exists ([] ++ lg')%list. rewrite H. reflexivity.
Defined.

(** X12.  The application of a file inside a transaction is all or
    nothing: whenever [apply] returns an error (from the opening of the
    transaction, the claim, the content or the commit) the committed
    state of the database is what it was before; and when it returns no
    error the four calls were made, the commit last. *)
Theorem apply_all_or_nothing {store rows : Type} (drv : Driver store rows)
    (f : migrationFile) (c : Conn store) :
  skipTx (Content f) = false ->
  (forall e, fst (apply drv f c) = Some e ->
             committed (snd (apply drv f c)) = committed c) /\
  (fst (apply drv f c) = None ->
   trace (snd (apply drv f c))
   = (trace c ++ [EvBegin; evClaim f; evBody f; EvCommit])%list).
Proof.
  intros Htx. rewrite (apply_tx_eq drv f c Htx).
  destruct (drv_begin drv (committed c));
    [split; [reflexivity | discriminate]|].
  cbv zeta. destruct (fst (drv_exec drv claimQuery _ _));
    [split; [reflexivity | discriminate]|].
  destruct (fst (drv_exec drv (Content f) [] _));
    [split; [reflexivity | discriminate]|].
  destruct (drv_commit drv _); split;
    try reflexivity; discriminate.
Qed.

Lemma apply_all_or_nothing_witness :
  fst (apply toy_no_commit file_ok toy_ready)
  = Some (DriverError "commit failed") /\
  committed (snd (apply toy_no_commit file_ok toy_ready)) = committed toy_ready.
Proof.
  split; [reflexivity|].
  apply (apply_all_or_nothing toy_no_commit file_ok toy_ready eq_refl)
    with (e := DriverError "commit failed").
  reflexivity.
Defined.

(** X13.  For any ledger rows and any files, also with repeated IDs,
    [diff] returns the files whose ID is not in the ledger, each as
    often as it was given, in ascending order of ID. *)
Theorem diff_sorted_unapplied (records : list migrationRecord)
    (files : list migrationFile) :
  StronglySorted ID_le (diff records files) /\
  Permutation (diff records files)
    (filter (fun f => negb (existsb (Z.eqb (ID f)) (map rec_ID records)))
       files) /\
  (forall f, In f (diff records files) -> ~ In (ID f) (map rec_ID records)).
Proof.
  split; [apply sort_by_ID_sorted|]. split; [apply sort_by_ID_perm|].
  intros f Hf. now apply diff_In in Hf.
Qed.

Lemma diff_sorted_unapplied_witness :
  ~ In 0 (map ID (diff [mkRecord 0 "init" 0] [file_add_users; file_init])).
Proof.
  destruct (diff_sorted_unapplied [mkRecord 0 "init" 0]
              [file_add_users; file_init]) as (_ & _ & H).
  intros Hin. apply in_map_iff in Hin as (f & Hf & Hin).
  apply (H f Hin). rewrite Hf. now left.
Defined.

(** ** Writing files *)

Lemma find_name_none (name : string) (es : list DirEntry) :
  find (fun e => (de_name e =? name)%string) es = None <->
  existsb (fun e => (de_name e =? name)%string) es = false.
Proof.
  induction es as [|x r IH]; cbn [find existsb]; [tauto|].
  destruct (de_name x =? name)%string; cbn [orb]; [|exact IH].
  split; discriminate.
Qed.

Lemma map_unchanged {A} (g : A -> A) (l : list A) :
  (forall x, In x l -> g x = x) -> map g l = l.
Proof.
  induction l as [|x r IH]; intros H; cbn [map]; [reflexivity|].
  rewrite (H x (or_introl eq_refl)), IH; [reflexivity|].
  intros y Hy. apply H. now right.
Qed.

Lemma create_and_write (dir name data : string) (fs : FS) :
  find (fun e => (de_name e =? name)%string) (fs_entries fs) = None ->
  fs_writable fs = true ->
  forall excl,
    OpenFile dir name excl fs
    = (None, mkFS (fs_listable fs) true
               (fs_entries fs ++ [mkEntry name (Some "")])
               (fs_ops fs ++ [OpCreate name])) /\
    WriteFile name data (snd (OpenFile dir name excl fs))
    = mkFS (fs_listable fs) true
        (fs_entries fs ++ [mkEntry name (Some data)])
        (fs_ops fs ++ [OpCreate name; OpWrite name data]).
Proof.
  intros Hfresh Hw excl. unfold OpenFile. rewrite Hfresh, Hw.
  split; [reflexivity|]. cbn [snd]. unfold WriteFile.
  cbn [fs_listable fs_writable fs_entries fs_ops].
  rewrite <- app_assoc. cbn [app]. f_equal.
  rewrite map_app. cbn [map de_name]. rewrite String.eqb_refl. f_equal.
  apply map_unchanged. intros x Hx.
  pose proof (find_none _ _ Hfresh x Hx) as Hn. cbv beta in Hn. now rewrite Hn.
Qed.

(** The cases of [safeWriteFile]. *)
Lemma safeWriteFile_cases (dir name data : string) (io : FileIO) (fs : FS) :
  (has_entry name fs = true ->
   safeWriteFile dir name data io fs
   = (Some (PathError "open" (Join dir name)), fs)) /\
  (has_entry name fs = false -> fs_writable fs = true ->
   safeWriteFile dir name data io fs
   = match io_write io data with
     | WriteOk =>
         (io_close io,
          mkFS (fs_listable fs) true
            (fs_entries fs ++ [mkEntry name (Some data)])
            (fs_ops fs ++ [OpCreate name; OpWrite name data]))
     | WriteFailed stored werr =>
         (Some werr,
          mkFS (fs_listable fs) true
            (fs_entries fs ++ [mkEntry name (Some stored)])
            (fs_ops fs ++ [OpCreate name; OpWrite name stored]))
     end) /\
  (forall e, In e (fs_entries fs) ->
             In e (fs_entries (snd (safeWriteFile dir name data io fs)))) /\
  (fst (safeWriteFile dir name data io fs) = None ->
   has_entry name fs = false /\
   io_write io data = WriteOk /\ io_close io = None /\
   fs_entries (snd (safeWriteFile dir name data io fs))
   = (fs_entries fs ++ [mkEntry name (Some data)])%list).
Proof.
  unfold has_entry, safeWriteFile.
  destruct (find (fun e => (de_name e =? name)%string) (fs_entries fs))
    as [x|] eqn:Ef.
  - assert (OpenFile dir name true fs
            = (Some (PathError "open" (Join dir name)), fs)) as ->
      by (unfold OpenFile; now rewrite Ef).
    split; [reflexivity|]. split; [|split; [intros e He; exact He|]].
    + intros Hno. apply find_name_none in Hno. congruence.
    + discriminate.
  - pose proof (proj1 (find_name_none _ _) Ef) as Hno.
    split; [intros H; congruence|].
    destruct (fs_writable fs) eqn:Hw.
    + destruct (create_and_write dir name data fs Ef Hw true) as [Ho Hwr].
      rewrite Ho in *. cbn [snd] in Hwr.
      destruct (io_write io data) as [|stored werr] eqn:Ew.
      * rewrite Hwr. cbn [fst snd fs_entries].
        split; [reflexivity|]. split.
        -- intros e He. apply in_or_app. now left.
        -- intros Hc. repeat split; assumption.
      * destruct (create_and_write dir name stored fs Ef Hw true) as [_ Hws].
        rewrite Ho in Hws. cbn [snd] in Hws. rewrite Hws.
        cbn [fst snd fs_entries].
        split; [reflexivity|]. split.
        -- intros e He. apply in_or_app. now left.
        -- discriminate.
    + assert (OpenFile dir name true fs
              = (Some (PathError "open" (Join dir name)), fs)) as ->
        by (unfold OpenFile; now rewrite Ef, Hw).
      split; [discriminate|]. split; [intros e He; exact He | discriminate].
Qed.

(** X14.  [safeWriteFile] is an exclusive create.  When an entry of that
    name exists it fails and leaves the directory as it is.  When there
    is none and the directory can be written it adds one entry: with
    all the data when the write succeeds, the result being then the
    error of the close, if any; with what the write stored when the
    write fails, the result being then the error of the write, also
    when the close fails too.  It returns no error only when the entry
    was missing, the write and the close succeeded and the new entry
    holds exactly the data.  In every case the entries that were there
    stay as they were. *)
Theorem safeWriteFile_exclusive (dir name data : string) (io : FileIO)
    (fs : FS) :
  (has_entry name fs = true ->
   safeWriteFile dir name data io fs
   = (Some (PathError "open" (Join dir name)), fs)) /\
  (has_entry name fs = false -> fs_writable fs = true ->
   safeWriteFile dir name data io fs
   = match io_write io data with
     | WriteOk =>
         (io_close io,
          mkFS (fs_listable fs) true
            (fs_entries fs ++ [mkEntry name (Some data)])
            (fs_ops fs ++ [OpCreate name; OpWrite name data]))
     | WriteFailed stored werr =>
         (Some werr,
          mkFS (fs_listable fs) true
            (fs_entries fs ++ [mkEntry name (Some stored)])
            (fs_ops fs ++ [OpCreate name; OpWrite name stored]))
     end) /\
  (forall e, In e (fs_entries fs) ->
             In e (fs_entries (snd (safeWriteFile dir name data io fs)))) /\
  (fst (safeWriteFile dir name data io fs) = None ->
   has_entry name fs = false /\
   io_write io data = WriteOk /\ io_close io = None /\
   fs_entries (snd (safeWriteFile dir name data io fs))
   = (fs_entries fs ++ [mkEntry name (Some data)])%list).
Proof. apply safeWriteFile_cases. Qed.

Lemma safeWriteFile_exclusive_witness :
  safeWriteFile example_dir "1-a.sql" "select 0;" healthy_io example_fs
  = (Some (PathError "open" "migrations/1-a.sql"), example_fs) /\
  fst (safeWriteFile example_dir "9-z.sql" "select 9;" failing_io example_fs)
  = Some (PathError "write" "disk full").
Proof.
  destruct (safeWriteFile_exclusive example_dir "1-a.sql" "select 0;"
              healthy_io example_fs) as (H1 & _).
  destruct (safeWriteFile_exclusive example_dir "9-z.sql" "select 9;"
              failing_io example_fs) as (_ & H2 & _).
  split; [apply H1; reflexivity|].
  rewrite H2; reflexivity.
Defined.

Section Bootstrap.

Variable initContent : string.
Variable io : FileIO.

(** X15.  A [Setup] that succeeds returns the path of [0-init.sql] in
    the migrations directory; the directory then has that file with the
    embedded content, the name parses to ID 0 and slug [init], and the
    entries that were there are unchanged.  A second [Setup] fails on
    the existing file and changes nothing. *)
Theorem Setup_creates_bootstrap (creatable : bool) (dir : string)
    (d d1 : option FS) (p : string) :
  Setup initContent io creatable dir d = (Ok p, d1) ->
  p = Join dir "0-init.sql" /\
  reparse "0-init.sql" = Some (Ok 0, "init") /\
  exists fs1,
    d1 = Some fs1 /\
    In (mkEntry "0-init.sql" (Some initContent)) (fs_entries fs1) /\
    (forall fs e, d = Some fs -> In e (fs_entries fs) -> In e (fs_entries fs1)) /\
    forall io', exists err,
      Setup initContent io' creatable dir d1 = (Err err, d1) /\
      errors_Is err (PathError "open" (Join dir "0-init.sql")) = true.
Proof.
  unfold Setup. change (FormatInt 0 ++ "-" ++ "init" ++ ".sql") with "0-init.sql".
  destruct (MkdirAll dir creatable d) as [e|fs] eqn:Em; [discriminate|].
  cbv zeta.
  destruct (safeWriteFile_cases dir "0-init.sql" initContent io fs)
    as (_ & _ & Hkeep & Hok).
  destruct (safeWriteFile dir "0-init.sql" initContent io fs)
    as [[e|] fs'] eqn:Es; [discriminate|].
  cbn [fst snd] in Hkeep, Hok. destruct (Hok eq_refl) as (_ & _ & _ & Hent).
  intros [= <- <-].
  split; [reflexivity|]. split; [reflexivity|].
  exists fs'. split; [reflexivity|]. split; [|split].
  - rewrite Hent. apply in_or_app. right. now left.
  - intros fs0 e0 -> He0. apply Hkeep.
    unfold MkdirAll in Em. now injection Em as <-.
  - intros io'. cbn [MkdirAll].
    destruct (safeWriteFile_cases dir "0-init.sql" initContent io' fs')
      as (Hex' & _).
    rewrite Hex'.
    + eexists. split; [reflexivity|]. cbn [errors_Is error_eqb].
      rewrite !String.eqb_refl. reflexivity.
    + unfold has_entry. rewrite Hent, existsb_app.
      cbn [existsb de_name]. rewrite String.eqb_refl. apply orb_true_r.
Qed.

(** X16.  The bootstrap: after [Setup] in a place where no migrations
    directory exists, [Migrate] on a database without the ledger table
    sends the embedded content to the connection as one statement
    outside any transaction and without a claim, given that the content
    carries the no-transaction directive (as [templates/init.sql] does);
    the ledger query before it is the only other call. *)
Theorem Setup_then_Migrate {store rows : Type} (drv : Driver store rows)
    (dir : string) (c : Conn store) (e : error) (d1 : option FS) (p : string) :
  skipTx initContent = true ->
  drv_query drv qApplied (committed c) = inl e ->
  errors_As_PgError e = Some undefined_table ->
  Setup initContent io true dir None = (Ok p, d1) ->
  exists fs1,
    d1 = Some fs1 /\
    fst (Migrate drv dir None fs1 c)
    = (result_of (fst (drv_exec drv initContent [] (committed c))),
       mkConn (snd (drv_exec drv initContent [] (committed c)))
         (trace c ++ [EvQuery qApplied; EvExec false initContent []])).
Proof.
  intros Htx Hq He. unfold Setup. cbn [MkdirAll].
  change (FormatInt 0 ++ "-" ++ "init" ++ ".sql") with "0-init.sql".
  cbv zeta. unfold safeWriteFile, OpenFile. cbn [fs_entries find fs_writable].
  destruct (io_write io initContent); [|discriminate].
  destruct (io_close io); [discriminate|].
  intros [= <- <-]. eexists. split; [reflexivity|].
  unfold Migrate, applied, Query, record_event. rewrite Hq, He.
  rewrite String.eqb_refl.
  unfold available, ReadDir, WriteFile.
  cbn [snd fs_listable fs_entries map app de_name sort_by_name fold_right
         insert_by_name].
  change ("0-init.sql" =? "0-init.sql")%string with true. cbv iota.
  cbn [read_migrations de_name de_data].
  change (reFilename "0-init.sql") with (Some ("0", "init")). cbv iota beta.
  change (mustID "0") with (@Ok MigrationID 0). cbv iota beta.
  cbn [check_duplicates find].
  unfold diff. cbn [map filter existsb negb sort_by_ID fold_right insert_by_ID].
  cbn [migrate_loop skipped_by].
  rewrite apply_notx_eq by exact Htx. cbn [Content committed trace].
  destruct (drv_exec drv initContent [] (committed c)) as [[err|] s];
    cbn [fst snd result_of migrate_loop]; rewrite <- app_assoc; reflexivity.
Qed.

End Bootstrap.

Lemma Setup_creates_bootstrap_witness :
  exists fs1,
    In (mkEntry "0-init.sql" (Some "--drift:no-transaction")) (fs_entries fs1) /\
    exists err,
      Setup "--drift:no-transaction" healthy_io true example_dir (Some fs1)
      = (Err err, Some fs1).
Proof.
  destruct (Setup_creates_bootstrap "--drift:no-transaction" healthy_io true
              example_dir None
              (Some (mkFS true true
                       [mkEntry "0-init.sql" (Some "--drift:no-transaction")]
                       [OpCreate "0-init.sql";
                        OpWrite "0-init.sql" "--drift:no-transaction"]))
              (Join example_dir "0-init.sql") eq_refl)
    as (_ & _ & fs1 & [= <-] & Hin & _ & Hsecond).
  destruct (Hsecond healthy_io) as (err & Herr & _).
  eexists. split; [exact Hin|]. exists err. exact Herr.
Defined.

Lemma Setup_then_Migrate_witness :
  exists fs1,
    fst (Migrate toy_driver example_dir None fs1 toy_fresh)
    = (Ok tt,
       mkConn (mkToy false [] ["--drift:no-transaction"])
         [EvQuery qApplied; EvExec false "--drift:no-transaction" []]).
Proof.
  destruct (Setup_then_Migrate "--drift:no-transaction" healthy_io toy_driver
              example_dir toy_fresh (PgError undefined_table) _ _
              eq_refl eq_refl eq_refl eq_refl) as (fs1 & _ & H).
  exists fs1. exact H.
Defined.

(** ** New files *)

Lemma new_name_fresh (dir : string) (fs : FS) files lg
    (id : MigrationID) (s : string) :
  valid_ID id ->
  available dir fs = (Ok files, lg) ->
  ~ In id (map ID files) ->
  no_newline s = true ->
  find (fun e => (de_name e =? filename (idWidth files) id s)%string)
    (fs_entries fs) = None.
Proof.
  intros Hid Hav Hni Hnl.
  destruct (find _ (fs_entries fs)) as [e0|] eqn:E0; [|reflexivity].
  exfalso. apply find_name_some in E0 as [Hin0 Hn0].
  pose proof (available_valid _ _ _ _ Hav) as Hvalid.
  pose proof (idWidth_max files Hvalid) as Hw.
  destruct (max_digit_length_bounds files Hvalid) as (_ & Hle & _).
  pose proof (max_digit_length_nonneg files) as Hge.
  assert (reFilename (de_name e0) = Some (zero_pad id (idWidth files), s)) as Hre
    by (rewrite Hn0; apply reFilename_filename; [apply Hid | lia | assumption]).
  apply available_ok_iff in Hav as (_ & Hok & _ & Hms & _).
  assert (entry_ok dir e0) as Hok0.
  { eapply Forall_In; [exact Hok|].
    eapply Permutation_in; [symmetry; apply sort_by_name_perm | exact Hin0]. }
  destruct (entry_ok_file _ _ _ _ Hok0 Hre) as (g & Hg & Hgid).
  apply Hni.
  destruct (zero_pad_spec id (idWidth files) (proj1 Hid)) as (_ & Hval & _).
  rewrite Hval in Hgid. rewrite <- Hgid. apply in_map.
  subst files. apply sorted_files_of_entries. now exists e0.
Qed.

(** X17.  A new file can be found again: when the chosen ID is valid and
    not yet in the directory, the directory can be written and the
    template succeeds, [NewFile] returns the path of a file that the
    next discovery lists with that ID, the normalized slug and the
    output of the template as content, next to the files that were
    there. *)
Theorem NewFile_then_available (now : Z) (deflt : Template) (dir : string)
    (id : MigrationID) (slug : string) (tmpl : option Template) (fs : FS)
    files lg out :
  valid_ID id ->
  available dir fs = (Ok files, lg) ->
  ~ In id (map ID files) ->
  fs_writable fs = true ->
  match tmpl with Some t => t | None => deflt end (mkData id (slugify slug))
  = (out, None) ->
  let nf := new_file dir (idWidth files) id slug out in
  exists fs1,
    NewFile now deflt dir id slug tmpl fs = (Ok (Path nf), fs1, lg) /\
    exists files1 lg1,
      available dir fs1 = (Ok files1, lg1) /\
      Permutation files1 (nf :: files).
Proof.
  intros Hid Hav Hni Hw Ht nf.
  pose proof (new_name_fresh dir fs files lg id (slugify slug) Hid Hav Hni
                (slugify_no_newline false slug)) as Hfresh.
  set (name := filename (idWidth files) id (slugify slug)) in *.
  destruct (create_and_write dir name out fs Hfresh Hw false) as [Ho Hwr].
  pose proof (available_valid _ _ _ _ Hav) as Hvalid.
  pose proof (idWidth_max files Hvalid) as Hwd.
  destruct (max_digit_length_bounds files Hvalid) as (_ & Hle & _).
  pose proof (max_digit_length_nonneg files) as Hge.
  eexists. split.
  - unfold NewFile. destruct (Z.eqb_spec id (-1)) as [->|_]; [destruct Hid; lia|].
    rewrite Hav. apply find_ID_none in Hni. rewrite Hni. cbv zeta.
    fold name. rewrite Ht. rewrite Ho in *. cbn [snd] in Hwr. rewrite Hwr.
    reflexivity.
  - apply available_ok_iff in Hav as (Hl & Hok & Hnd & Hms & _).
    assert (file_of_entry dir (mkEntry name (Some out)) = Some nf) as Hnf.
    { unfold file_of_entry. cbn [de_name de_data]. unfold name.
      rewrite reFilename_filename;
        [|apply Hid | lia | apply slugify_no_newline].
      now rewrite (mustID_zero_pad id (idWidth files) Hid). }
    assert (Permutation
              (files_of dir (sort_by_name (fs_entries fs ++ [mkEntry name (Some out)])))
              (nf :: files)) as Hperm.
    { rewrite (files_of_perm dir _ _ (sort_by_name_perm _)), files_of_app.
      cbn [files_of]. rewrite Hnf.
      rewrite <- Permutation_cons_append. constructor. subst files.
      apply files_of_perm. symmetry. apply sort_by_name_perm. }
    eexists _, _. split; [|exact Hperm].
    apply available_ok_iff. cbn [fs_listable fs_entries].
    split; [assumption|]. split; [|split; [|split; reflexivity]].
    + eapply Permutation_Forall; [symmetry; apply sort_by_name_perm|].
      apply Forall_app. split.
      * eapply Permutation_Forall; [apply sort_by_name_perm | exact Hok].
      * constructor; [right; now exists nf | constructor].
    + eapply Permutation_NoDup;
        [symmetry; apply Permutation_map, Hperm|].
      cbn [map]. constructor; [exact Hni|]. subst files. exact Hnd.
Qed.

Lemma NewFile_then_available_witness :
  exists fs1 files1 lg1,
    NewFile 1700000000 fixed_template example_dir 5 "add users" None example_fs
    = (Ok "migrations/05-add_users.sql", fs1,
       [Debugf "Ignoring non-migration file: %s" [ArgString "README.md"]]) /\
    available example_dir fs1 = (Ok files1, lg1) /\
    In (new_file example_dir 2 5 "add users" "-- Write your migration here.")
      files1.
Proof.
  destruct (NewFile_then_available 1700000000 fixed_template example_dir 5
              "add users" None example_fs
              (files_of example_dir (sort_by_name (fs_entries example_fs)))
              (ignored_log (sort_by_name (fs_entries example_fs)))
              "-- Write your migration here.")
    as (fs1 & H1 & files1 & lg1 & H2 & H3).
  - unfold valid_ID, maxInt64. lia.
  - vm_compute. reflexivity.
  - vm_compute. intuition discriminate.
  - reflexivity.
  - reflexivity.
  - exists fs1, files1, lg1. split; [exact H1|]. split; [exact H2|].
    eapply Permutation_in; [symmetry; exact H3|]. left. reflexivity.
Defined.

Lemma NewFile_duplicate_ID_witness :
  exists e,
    NewFile 1700000000 fixed_template example_dir 20 "again" None example_fs
    = (Err e, example_fs,
       [Debugf "Ignoring non-migration file: %s" [ArgString "README.md"]]) /\
    errors_Is e ErrDuplicateID = true.
Proof.
  apply (NewFile_duplicate_ID 1700000000 fixed_template example_dir 20 "again"
           None example_fs
           (files_of example_dir (sort_by_name (fs_entries example_fs)))
           _
           (mkFile "migrations/020-b.sql" "020-b.sql" "select 2;" 20 "b" "020")).
  - discriminate.
  - vm_compute. reflexivity.
  - vm_compute. now left.
  - reflexivity.
Defined.

Lemma NewFile_valid_ID_keeps_entries_witness :
  In (mkEntry "1-a.sql" (Some "select 1;"))
    (fs_entries
       (snd (fst (NewFile 1700000000 fixed_template example_dir 5 "x" None
                    example_fs)))).
Proof.
  apply NewFile_valid_ID_keeps_entries.
  - unfold valid_ID, maxInt64. lia.
  - now left.
Defined.

(** ** Renumbering, further *)

Lemma do_renames_ops (dir : string) (rs : list (string * string)) :
  forall fs fs',
    do_renames dir rs fs = (None, fs') ->
    fs_ops fs' = (fs_ops fs ++ map op_of_rename rs)%list.
Proof.
  induction rs as [|[o n] rest IH]; intros fs fs'; cbn [do_renames map].
  - intros [= <-]. now rewrite app_nil_r.
  - destruct (Rename dir o n fs) as [[e|] fs1] eqn:Er; [discriminate|].
    intros Hdo. rewrite (IH _ _ Hdo).
    unfold Rename in Er.
    destruct (fs_writable fs && has_entry o fs); [|discriminate].
    injection Er as <-. cbn [fs_ops]. now rewrite <- app_assoc.
Qed.

(** X20.  [Renumber] acts as it announces.  Without [write] it leaves
    the directory as it is, whatever it finds; with [write], a run that
    completes has performed exactly the renames of the plan, in the
    order of the plan, and the plan is the table that the run without
    [write] shows. *)
Theorem Renumber_follows_plan (dir : string) (fs : FS) files lg :
  available dir fs = (Ok files, lg) ->
  let plan := plan_renames (idWidth files) files in
  snd (fst (Renumber dir false fs)) = fs /\
  (plan <> [] ->
   snd (Renumber dir false fs)
   = (lg ++ [Infof "Renames:" [];
             InfofTable ["Old"; "->"; "New"]
               (map (fun r => [fst r; "->"; snd r]) plan);
             Infof "Skipping renames because write is off" []])%list) /\
  (forall fs1 lg1,
     Renumber dir true fs = (Ok tt, fs1, lg1) ->
     fs_ops fs1 = (fs_ops fs ++ map op_of_rename plan)%list).
Proof.
  intros Hav plan. unfold Renumber. rewrite Hav. cbv zeta. fold plan.
  destruct plan as [|r rs] eqn:Ep.
  - split; [reflexivity|]. split; [congruence|].
    intros fs1 lg1 [= <- _]. now rewrite app_nil_r.
  - cbn [negb]. split; [reflexivity|]. split.
    + intros _. cbn [snd]. now rewrite <- app_assoc.
    + intros fs1 lg1.
      destruct (do_renames dir (r :: rs) fs) as [[e|] fs'] eqn:Edo;
        [discriminate|].
      intros [= <- _]. now apply (do_renames_ops dir (r :: rs)).
Qed.

Lemma Renumber_follows_plan_witness :
  fs_ops (snd (fst (Renumber example_dir true scenario_fs)))
  = [OpRename "1-a.sql" "001-a.sql"; OpRename "20-b.sql" "020-b.sql"] /\
  snd (fst (Renumber example_dir false scenario_fs)) = scenario_fs.
Proof.
  destruct (Renumber_follows_plan example_dir scenario_fs
              (files_of example_dir (sort_by_name (fs_entries scenario_fs)))
              (ignored_log (sort_by_name (fs_entries scenario_fs))))
    as (Hdry & _ & Hops); [vm_compute; reflexivity|].
  split; [|exact Hdry].
  erewrite Hops; [vm_compute; reflexivity|].
  vm_compute. reflexivity.
Defined.

Lemma renumbered_not_migration (w : Z) (e : DirEntry) :
  reFilename (de_name e) = None -> renumbered w e = e.
Proof.
  intros H. destruct e as [n d]. unfold renumbered, renumbered_name.
  cbn [de_name de_data] in *. now rewrite H.
Qed.

Lemma identity_renumbered_file (dir : string) (w : Z) (f : migrationFile) :
  identity (renumbered_file dir w f) = identity f.
Proof.
  unfold renumbered_file. now destruct (len (idRaw f) =? w).
Qed.

(** Discovery in a directory whose entries have been renumbered. *)
Lemma available_after_renumbering (dir : string) (fs fs' : FS) ms lg :
  available dir fs = (Ok ms, lg) ->
  fs_entries fs' = map (renumbered (idWidth ms)) (fs_entries fs) ->
  fs_listable fs' = fs_listable fs ->
  exists ms' lg',
    available dir fs' = (Ok ms', lg') /\
    Permutation ms' (map (renumbered_file dir (idWidth ms)) ms).
Proof.
  intros Hav He Hl'.
  set (w := idWidth ms) in *. set (es := fs_entries fs) in *.
  apply available_ok_iff in Hav as (Hl & Hok & Hnd & Hms & _).
  fold es in Hok, Hnd, Hms.
  assert (Forall (entry_ok dir) es) as Hoke
    by (eapply Permutation_Forall; [apply sort_by_name_perm | exact Hok]).
  assert (forall f, In f ms <->
            exists e, In e es /\ file_of_entry dir e = Some f)
    as Hfiles by (subst ms; apply sorted_files_of_entries).
  assert (files_of dir (fs_entries fs')
          = map (renumbered_file dir w) (files_of dir es)) as Hfo.
  { rewrite He. eapply files_of_renumbered; eauto. apply incl_refl. }
  assert (Permutation (files_of dir (sort_by_name (fs_entries fs')))
            (map (renumbered_file dir w) ms)) as Hperm.
  { rewrite (files_of_perm dir _ _ (sort_by_name_perm _)), Hfo, Hms.
    apply Permutation_map, files_of_perm. symmetry. apply sort_by_name_perm. }
  assert (map ID (map (renumbered_file dir w) ms) = map ID ms) as HIDs.
  { rewrite map_map. apply map_ext_in. intros f Hf.
    eapply renumbered_file_facts; eauto. }
  eexists _, _. split; [|exact Hperm].
  apply available_ok_iff. split; [congruence|].
  split; [|split; [|split; reflexivity]].
  - eapply Permutation_Forall; [symmetry; apply sort_by_name_perm|].
    rewrite He. apply Forall_forall. intros x Hx.
    apply in_map_iff in Hx as (e0 & <- & He0).
    eapply entry_ok_renumbered; eauto.
  - eapply Permutation_NoDup; [symmetry; apply Permutation_map, Hperm|].
    rewrite HIDs, Hms. exact Hnd.
Qed.

(** X21.  Renumbering moves files and nothing more: after a run with
    [write] that completes, discovery finds migrations with the same
    IDs, slugs and contents as before, every entry has the content it
    had, and the entries that are no migration files are where they
    were. *)
Theorem Renumber_preserves_migrations (dir : string) (fs fs1 : FS)
    (lg1 : list LogLine) files lg :
  Renumber dir true fs = (Ok tt, fs1, lg1) ->
  available dir fs = (Ok files, lg) ->
  (exists files1 lg2,
     available dir fs1 = (Ok files1, lg2) /\
     Permutation (map identity files1) (map identity files)) /\
  map de_data (fs_entries fs1) = map de_data (fs_entries fs) /\
  (forall e, In e (fs_entries fs) -> reFilename (de_name e) = None ->
             In e (fs_entries fs1)).
Proof.
  intros H Hav. unfold Renumber in H. rewrite Hav in H. cbv zeta in H.
  destruct (plan_renames (idWidth files) files) as [|r rs] eqn:Epl.
  - injection H as <- _. split; [|split; [reflexivity | auto]].
    exists files, lg. split; [assumption | reflexivity].
  - cbn [negb] in H.
    destruct (do_renames dir (r :: rs) fs) as [[e|] fs'] eqn:Edo;
      [discriminate H|].
    injection H as <- _. rewrite <- Epl in Edo.
    destruct (do_renames_renumbers dir fs fs' files lg Hav Edo) as [He Hl].
    split; [|split].
    + destruct (available_after_renumbering dir fs fs' files lg Hav He Hl)
        as (ms' & lg' & Hav' & Hperm).
      exists ms', lg'. split; [assumption|].
      rewrite (Permutation_map identity Hperm), map_map.
      erewrite map_ext; [reflexivity|].
      intros f. apply identity_renumbered_file.
    + rewrite He, map_map. reflexivity.
    + intros e0 He0 Hno. rewrite He. apply in_map_iff. exists e0.
      split; [now apply renumbered_not_migration | assumption].
Qed.

Lemma Renumber_preserves_migrations_witness :
  map de_data (fs_entries (snd (fst (Renumber example_dir true example_fs))))
  = map de_data (fs_entries example_fs).
Proof.
  eapply (Renumber_preserves_migrations example_dir example_fs).
  - vm_compute. reflexivity.
  - vm_compute. reflexivity.
Defined.

(** ** Names and numbers *)

Lemma parse_digits_shift (s : string) (acc : Z) :
  parse_digits acc s = acc * 10 ^ len s + parse_digits 0 s.
Proof.
  revert acc; induction s as [|c r IH]; intros acc.
  - unfold len. simpl. lia.
  - cbn [parse_digits]. rewrite IH, (IH (0 * 10 + digit_val c)).
    unfold len. cbn [String.length]. rewrite Nat2Z.inj_succ, Z.pow_succ_r by lia.
    ring.
Qed.

Lemma parse_digits_bound (s : string) :
  all_digits s = true -> 0 <= parse_digits 0 s < 10 ^ len s.
Proof.
  induction s as [|c r IH]; intros H.
  - unfold len. simpl. lia.
  - cbn [all_digits] in H. apply andb_prop in H as [Hc Hr].
    specialize (IH Hr). cbn [parse_digits]. rewrite parse_digits_shift.
    unfold len in *. cbn [String.length].
    rewrite Nat2Z.inj_succ, Z.pow_succ_r by lia.
    unfold is_digit in Hc. unfold digit_val. nia.
Qed.

Lemma string_compare_refl (s : string) : String.compare s s = Eq.
Proof.
  induction s as [|c r IH]; [reflexivity|]. cbn [String.compare].
  unfold Ascii.compare. now rewrite N.compare_refl.
Qed.

(** Numerals of the same length compare as their values do, whatever
    follows them. *)
Lemma digits_compare_lt (a : string) :
  forall b x y,
    String.length a = String.length b ->
    all_digits a = true -> all_digits b = true ->
    parse_digits 0 a < parse_digits 0 b ->
    String.compare (a ++ x) (b ++ y) = Lt.
Proof.
  induction a as [|c r IH]; intros b x y Hlen Ha Hb Hlt.
  - destruct b; [simpl in Hlt; lia | discriminate Hlen].
  - destruct b as [|d s]; [discriminate Hlen|].
    injection Hlen as Hlen.
    cbn [all_digits] in Ha, Hb.
    apply andb_prop in Ha as [Hc Hr]. apply andb_prop in Hb as [Hd Hs].
    cbn [parse_digits] in Hlt.
    rewrite (parse_digits_shift r), (parse_digits_shift s) in Hlt.
    pose proof (parse_digits_bound r Hr) as Br.
    pose proof (parse_digits_bound s Hs) as Bs.
    assert (len r = len s) as El by (unfold len; now rewrite Hlen).
    rewrite El in *.
    assert (0 < 10 ^ len s) as Hp by (apply Z.pow_pos_nonneg; unfold len; lia).
    cbn [append String.compare]. unfold Ascii.compare.
    unfold digit_val in Hlt.
    destruct (N.compare_spec (N_of_ascii c) (N_of_ascii d)) as [E|L|G].
    + apply IH; try assumption. rewrite E in Hlt. lia.
    + reflexivity.
    + exfalso. nia.
Qed.

(** X22.  When [Renumber] has nothing to do, the order of the file
    names as strings is the order of the IDs as numbers: for two
    migration files of the directory, one has the smaller ID exactly
    when it has the smaller name. *)
Theorem names_sort_like_IDs (dir : string) (fs : FS) files lg :
  available dir fs = (Ok files, lg) ->
  plan_renames (idWidth files) files = [] ->
  forall f g, In f files -> In g files ->
    (ID f < ID g <-> String.ltb (Name f) (Name g) = true).
Proof.
  intros Hav Hplan.
  apply plan_renames_nil_inv in Hplan.
  assert (forall f g, In f files -> In g files -> ID f < ID g ->
                      String.compare (Name f) (Name g) = Lt) as Hlt.
  { intros f g Hf Hg Hfg.
    pose proof (Forall_In _ _ f Hplan Hf) as Lf.
    pose proof (Forall_In _ _ g Hplan Hg) as Lg. cbv beta in Lf, Lg.
    apply available_ok_iff in Hav as (_ & _ & _ & -> & _).
    apply sorted_files_of_entries in Hf as (e1 & _ & H1).
    apply sorted_files_of_entries in Hg as (e2 & _ & H2).
    destruct (file_of_entry_parsed _ _ _ H1) as [R1 M1].
    destruct (file_of_entry_parsed _ _ _ H2) as [R2 M2].
    apply reFilename_inv in R1 as (N1 & D1 & E1 & _).
    apply reFilename_inv in R2 as (N2 & D2 & E2 & _).
    destruct (mustID_ok_valid _ _ D1 E1 M1) as [V1 _].
    destruct (mustID_ok_valid _ _ D2 E2 M2) as [V2 _].
    rewrite N1, N2. apply digits_compare_lt; try assumption.
    - unfold len in Lf, Lg. lia.
    - congruence. }
  intros f g Hf Hg. unfold String.ltb. split.
  - intros Hfg. now rewrite (Hlt f g Hf Hg Hfg).
  - intros Hn. destruct (Z.lt_trichotomy (ID f) (ID g)) as [H|[H|H]];
      [assumption | exfalso | exfalso].
    + assert (f = g) as ->.
      { apply available_ok_iff in Hav as (_ & _ & Hnd & -> & _).
        eapply NoDup_map_eq; eauto. }
      rewrite string_compare_refl in Hn. discriminate.
    + rewrite String.compare_antisym, (Hlt g f Hg Hf H) in Hn. discriminate.
Qed.

Lemma names_sort_like_IDs_witness :
  String.ltb "020-b.sql" "300-c.sql" = true.
Proof.
  set (fs := mkFS true true
               [mkEntry "300-c.sql" (Some "select 3;");
                mkEntry "020-b.sql" (Some "select 2;")] []).
  apply (names_sort_like_IDs example_dir fs
           (files_of example_dir (sort_by_name (fs_entries fs)))
           (ignored_log (sort_by_name (fs_entries fs)))
           eq_refl eq_refl
           (mkFile "migrations/020-b.sql" "020-b.sql" "select 2;" 20 "b" "020")
           (mkFile "migrations/300-c.sql" "300-c.sql" "select 3;" 300 "c" "300")).
  - vm_compute. now left.
  - vm_compute. right. now left.
  - reflexivity.
Defined.

(** ** The command line *)

(** X23.  The command line shows the messages of the package by level:
    played on a [CLI], a sequence of [Infof] and [Debugf] calls adds to
    the error stream exactly the calls whose level is at most the
    verbosity, in order, each with a line feed after its format, and
    leaves the output stream and the verbosity as they are; so at the
    default verbosity the debug messages are not shown, and below it
    nothing is. *)
Theorem CLI_shows_by_level
    (render : list string -> list (list string) -> string)
    (lg : list LogLine) (cli : CLI) :
  let cli' := fold_left (emit render) lg cli in
  cli_stdout cli' = cli_stdout cli /\
  cli_verbosity cli' = cli_verbosity cli /\
  cli_stderr cli'
  = (cli_stderr cli
     ++ map (written render)
          (filter (fun l => level_of l <=? cli_verbosity cli) lg))%list.
Proof.
  revert cli; induction lg as [|l r IH]; intros cli; cbn [fold_left filter map].
  - repeat split. now rewrite app_nil_r.
  - destruct (IH (emit render cli l)) as (Ho & Hv & He).
    assert (cli_stdout (emit render cli l) = cli_stdout cli /\
            cli_verbosity (emit render cli l) = cli_verbosity cli /\
            cli_stderr (emit render cli l)
            = (cli_stderr cli
               ++ (if level_of l <=? cli_verbosity cli
                   then [written render l] else []))%list) as (Ho1 & Hv1 & He1).
    { destruct l; cbn [emit level_of written];
        unfold CLI_Infof, CLI_Debugf, fwritef;
        match goal with
        | |- context [cli_verbosity cli <? ?lv] =>
            destruct (Z.ltb_spec (cli_verbosity cli) lv);
            destruct (Z.leb_spec lv (cli_verbosity cli)); try lia
        end;
        cbn [cli_stdout cli_stderr cli_verbosity];
        rewrite ?app_nil_r; repeat split. }
    cbv zeta. rewrite Ho, Hv, He, Ho1, Hv1, He1.
    repeat split.
    destruct (level_of l <=? cli_verbosity cli);
      cbn [map]; rewrite <- app_assoc; reflexivity.
Qed.

(** ** A new file in a consistent numbering *)

(** X24.  A new migration keeps the numbering consistent when its ID is
    not wider than the width in use: if [Renumber] had nothing to do
    before [NewFile], and the ID chosen has at most as many digits as
    the width of the directory, then [Renumber] has nothing to do after
    it either. *)
Theorem NewFile_keeps_numbering (now : Z) (deflt : Template) (dir : string)
    (id : MigrationID) (slug : string) (tmpl : option Template) (fs : FS)
    files lg out :
  valid_ID id ->
  available dir fs = (Ok files, lg) ->
  ~ In id (map ID files) ->
  fs_writable fs = true ->
  match tmpl with Some t => t | None => deflt end (mkData id (slugify slug))
  = (out, None) ->
  plan_renames (idWidth files) files = [] ->
  digit_length id <= idWidth files ->
  exists fs1 files1 lg1,
    fst (NewFile now deflt dir id slug tmpl fs)
    = (Ok (Join dir (filename (idWidth files) id (slugify slug))), fs1) /\
    available dir fs1 = (Ok files1, lg1) /\
    plan_renames (idWidth files1) files1 = [].
Proof.
  intros Hid Hav Hni Hw Ht Hplan Hdl.
  pose proof (new_name_fresh dir fs files lg id (slugify slug) Hid Hav Hni
                (slugify_no_newline false slug)) as Hfresh.
  set (name := filename (idWidth files) id (slugify slug)) in *.
  set (nf := new_file dir (idWidth files) id slug out).
  destruct (create_and_write dir name out fs Hfresh Hw false) as [Ho Hwr].
  pose proof (available_valid _ _ _ _ Hav) as Hvalid.
  pose proof (idWidth_max files Hvalid) as Hwd.
  destruct (max_digit_length_bounds files Hvalid) as (_ & Hle & _).
  pose proof (max_digit_length_nonneg files) as Hge.
  rewrite Ho in Hwr. cbn [snd] in Hwr.
  set (fs1 := mkFS (fs_listable fs) true
                (fs_entries fs ++ [mkEntry name (Some out)])
                (fs_ops fs ++ [OpCreate name; OpWrite name out])) in *.
  assert (fst (NewFile now deflt dir id slug tmpl fs) = (Ok (Join dir name), fs1))
    as HN.
  { unfold NewFile. destruct (Z.eqb_spec id (-1)) as [->|_]; [destruct Hid; lia|].
    rewrite Hav. apply find_ID_none in Hni. rewrite Hni. cbv zeta.
    fold name. rewrite Ht, Ho. cbn [snd fst]. now rewrite Hwr. }
  assert (file_of_entry dir (mkEntry name (Some out)) = Some nf) as Hnf.
  { unfold file_of_entry. cbn [de_name de_data]. unfold name.
    rewrite reFilename_filename; [|apply Hid | lia | apply slugify_no_newline].
    now rewrite (mustID_zero_pad id (idWidth files) Hid). }
  pose proof Hav as Hav0.
  apply available_ok_iff in Hav as (Hl & Hok & Hnd & Hms & _).
  assert (Permutation (files_of dir (sort_by_name (fs_entries fs1))) (nf :: files))
    as Hperm.
  { unfold fs1. cbn [fs_entries].
    rewrite (files_of_perm dir _ _ (sort_by_name_perm _)), files_of_app.
    cbn [files_of]. rewrite Hnf.
    rewrite <- Permutation_cons_append. constructor. rewrite Hms.
    apply files_of_perm. symmetry. apply sort_by_name_perm. }
  assert (available dir fs1
          = (Ok (files_of dir (sort_by_name (fs_entries fs1))),
             ignored_log (sort_by_name (fs_entries fs1)))) as Hav1.
  { apply available_ok_iff. unfold fs1 at 1. cbn [fs_listable].
    split; [assumption|]. split; [|split; [|split; reflexivity]].
    - eapply Permutation_Forall; [symmetry; apply sort_by_name_perm|].
      unfold fs1. cbn [fs_entries]. apply Forall_app. split.
      + eapply Permutation_Forall; [apply sort_by_name_perm | exact Hok].
      + constructor; [right; now exists nf | constructor].
    - eapply Permutation_NoDup; [symmetry; apply Permutation_map, Hperm|].
      cbn [map]. constructor; [exact Hni|]. rewrite Hms. exact Hnd. }
  exists fs1, (files_of dir (sort_by_name (fs_entries fs1))),
    (ignored_log (sort_by_name (fs_entries fs1))).
  split; [exact HN|]. split; [exact Hav1|].
  set (files1 := files_of dir (sort_by_name (fs_entries fs1))) in *.
  assert (idWidth files1 = idWidth files) as Hw1.
  { rewrite (idWidth_max files1) by (eapply available_valid, Hav1).
    rewrite Hwd.
    rewrite (max_digit_length_perm files1 (nf :: files))
      by (now apply Permutation_map).
    unfold max_digit_length. cbn [map fold_right ID nf new_file].
    fold (max_digit_length files). lia. }
  apply plan_renames_nil. rewrite Hw1.
  eapply Permutation_Forall; [symmetry; exact Hperm|].
  constructor; [|now apply plan_renames_nil_inv].
  cbn [idRaw nf new_file].
  destruct (zero_pad_spec id (idWidth files) (proj1 Hid)) as (_ & _ & Hlen & _).
  lia.
Qed.

Lemma NewFile_keeps_numbering_witness :
  exists fs1 files1 lg1,
    fst (NewFile 1700000000 fixed_template example_dir 150 "d" None
           consistent_fs)
    = (Ok "migrations/150-d.sql", fs1) /\
    available example_dir fs1 = (Ok files1, lg1) /\
    plan_renames (idWidth files1) files1 = [].
Proof.
  destruct (NewFile_keeps_numbering 1700000000 fixed_template example_dir 150
              "d" None consistent_fs
              (files_of example_dir (sort_by_name (fs_entries consistent_fs)))
              (ignored_log (sort_by_name (fs_entries consistent_fs)))
              "-- Write your migration here.")
    as (fs1 & files1 & lg1 & H1 & H2 & H3).
  - unfold valid_ID, maxInt64. lia.
  - vm_compute. reflexivity.
  - vm_compute. intuition discriminate.
  - reflexivity.
  - reflexivity.
  - vm_compute. reflexivity.
  - vm_compute. discriminate.
  - exists fs1, files1, lg1. split; [|split; assumption].
    exact H1.
Defined.

(** ** What [NewFile] leaves in place *)








